(** * OpenMed species detection: the batch client

    A shallow embedding of [batch_processing_example.py]
    (class [OpenMedSpeciesDetector]): [predict_single], [predict_batch] and
    [process_file], with the properties of its fan-out/fan-in layer.

    Python values that the code only carries around (the decoded JSON
    answer of the endpoint) are a [json] value; dictionaries are [gmap]s.
    A computation is a trace of observable events together with either a
    returned value or a raised exception.  Everything the class obtains from
    its collaborators (the [json] module, the SageMaker runtime, the thread
    pool, pandas, the clock) is a section variable. *)

From Stdlib Require Import ZArith List String Ascii Floats.SpecFloat.
From stdpp Require Import base gmap strings list sorting pretty.

Set Warnings "-register-all".
Set Default Proof Using "Type".
Open Scope string_scope.
Open Scope list_scope.

(** ** Python values *)

(** An exception instance: the name of its class and [str(e)].  Instances
    are those of subclasses of [Exception], which is what the two
    [except Exception] clauses of the source range over. *)
Record exn : Type := Exn { exn_class : string; str : string }.

Definition TypeError (msg : string) : exn := Exn "TypeError" msg.
Definition KeyError (key : string) : exn := Exn "KeyError" ("'" +:+ key +:+ "'").
Definition ValueError (msg : string) : exn := Exn "ValueError" msg.

(** What [json.loads] can return. *)
Inductive json : Type :=
  | JNull
  | JBool (b : bool)
  | JInt (n : Z)
  | JFloat (f : spec_float)
  | JStr (s : string)
  | JArr (l : list json)
  | JObj (m : gmap string json).

(** The outcome of evaluating an expression. *)
Inductive res (A : Type) : Type :=
  | Return (a : A)
  | Raise (e : exn).
Arguments Return {A} a.
Arguments Raise {A} e.

(** [type(v).__name__] *)
Definition type_name (v : json) : string :=
  match v with
  | JNull => "NoneType"
  | JBool _ => "bool"
  | JInt _ => "int"
  | JFloat _ => "float"
  | JStr _ => "str"
  | JArr _ => "list"
  | JObj _ => "dict"
  end.

(** [len(v)] *)
Definition len (v : json) : res nat :=
  match v with
  | JStr s => Return (String.length s)
  | JArr l => Return (length l)
  | JObj m => Return (size m)
  | _ => Raise (TypeError ("object of type '" +:+ type_name v +:+ "' has no len()"))
  end.

(** [for x in v]: the items the loop visits.  A string yields its
    characters and a dictionary its keys. *)
Definition iter (v : json) : res (list json) :=
  match v with
  | JStr s => Return ((λ c, JStr (String c EmptyString)) <$> list_ascii_of_string s)
  | JArr l => Return l
  | JObj m => Return ((λ kv, JStr kv.1) <$> map_to_list m)
  | _ => Raise (TypeError ("'" +:+ type_name v +:+ "' object is not iterable"))
  end.

(** [v[key]] for a string [key] *)
Definition getitem (v : json) (key : string) : res json :=
  match v with
  | JObj m =>
      match m !! key with
      | Some x => Return x
      | None => Raise (KeyError key)
      end
  | JStr _ => Raise (TypeError "string indices must be integers, not 'str'")
  | JArr _ => Raise (TypeError "list indices must be integers or slices, not str")
  | _ => Raise (TypeError ("'" +:+ type_name v +:+ "' object is not subscriptable"))
  end.

(** ** Computations *)

(** What a run of the program does to the outside. *)
Inductive event : Type :=
  | EvPrint (line : string)
  | EvInvoke (EndpointName ContentType Body : string)
  | EvReadCsv (file_path : string).

Definition M (A : Type) : Type := list event * res A.

Definition trace {A} (m : M A) : list event := m.1.
Definition outcome {A} (m : M A) : res A := m.2.

Definition raise {A} (e : exn) : M A := ([], Raise e).
Definition emit (ev : event) : M unit := ([ev], Return tt).
Definition eval {A} (r : res A) : M A := ([], r).

#[global] Instance M_ret : MRet M := λ A a, ([], Return a).
#[global] Instance M_bind : MBind M := λ A B f m,
  match m.2 with
  | Return a => (m.1 ++ (f a).1, (f a).2)
  | Raise e => (m.1, Raise e)
  end.

(** [try: body  except Exception as e: handler e] *)
Definition try_except {A} (body : M A) (handler : exn → M A) : M A :=
  match body.2 with
  | Return a => body
  | Raise e => (body.1 ++ (handler e).1, (handler e).2)
  end.

(** [print(line)] *)
Definition print (line : string) : M unit := emit (EvPrint line).

(** A [for] loop whose body appends one item to a list. *)
Fixpoint for_append {A B} (body : A → M B) (xs : list A) : M (list B) :=
  match xs with
  | [] => mret []
  | x :: xs' => y ← body x; ys ← for_append body xs'; mret (y :: ys)
  end.

(** A [for] loop whose body extends a list. *)
Fixpoint for_extend {A B} (body : A → M (list B)) (xs : list A) : M (list B) :=
  match xs with
  | [] => mret []
  | x :: xs' => ys ← body x; zs ← for_extend body xs'; mret (ys ++ zs)
  end.

(** ** The thread pool

    [ThreadPoolExecutor(max_workers)] keeps submitted tasks in a queue, runs
    at most [max_workers] of them at a time and finishes the running ones in
    any order.  Tasks are named by their position of submission. *)
Module Pool.

Record state : Type :=
  State { queued : list nat; running : list nat; finished : list nat }.

Definition init (n : nat) : state := State (seq 0 n) [] [].

Inductive step (max_workers : nat) : state → state → Prop :=
  | step_start i q r d :
      length r < max_workers →
      step max_workers (State (i :: q) r d) (State q (r ++ [i]) d)
  | step_finish i q r1 r2 d :
      step max_workers (State q (r1 ++ i :: r2) d) (State q (r1 ++ r2) (d ++ [i])).

Definition idle (s : state) : Prop := queued s = [] ∧ running s = [].

(** The pool ran [n] submitted tasks to the end, finishing them in [order]. *)
Definition completes (max_workers n : nat) (order : list nat) : Prop :=
  rtc (step max_workers) (init n) (State [] [] order).

(** Steps left before the pool is idle. *)
Definition fuel (s : state) : nat := 2 * length (queued s) + length (running s).

End Pool.

(** ** Records of the class *)

(** One item of the list [predict_batch] returns (a dictionary with these
    five keys in the source). *)
Record BatchResult : Type := {
  index : nat;
  text : string;
  entities : json;
  species_count : nat;
  status : string;
}.

(** One row of the table [process_file] returns. *)
Record Row : Type := {
  original_index : nat;
  original_text : string;
  species : json;
  confidence : json;
  start_position : json;
  end_position : json;
  row_status : string;
}.

(** What [pd.read_csv] returns: the named columns, in file order. *)
Definition DataFrame : Type := list (string * list string).

(** [df.columns] *)
Definition columns (df : DataFrame) : list string := df.*1.

(** [df[key].tolist()] *)
Definition column_tolist (df : DataFrame) (key : string) : res (list string) :=
  match list_find (λ c, c.1 = key) df with
  | Some (_, c) => Return c.2
  | None => Raise (KeyError key)
  end.

(** [ThreadPoolExecutor(max_workers=max_workers)]: the constructor refuses
    a bound that is not positive. *)
Definition ThreadPoolExecutor (max_workers : Z) : M unit :=
  if decide (max_workers ≤ 0)%Z
  then raise (ValueError "max_workers must be greater than 0")
  else mret tt.

(** [as_completed(fs)] yields every future of [fs] once; [completion] is
    the order in which it does, by position of submission. *)
Definition as_completed {A} (fs : list A) (completion : list nat) : list A :=
  omap (λ k, fs !! k) completion.

(** [results.sort(key=lambda x: x['index'])]: the order compares the keys. *)
Definition index_le (x y : BatchResult) : Prop := (index x ≤ index y)%nat.

#[global] Instance index_le_dec : RelDecision index_le :=
  λ x y, decide (index x ≤ index y)%nat.

Definition sort_by_index (results : list BatchResult) : list BatchResult :=
  merge_sort index_le results.

#[global] Instance index_le_trans : Transitive index_le.
Proof. unfold index_le. intros x y z; lia. Qed.

#[global] Instance index_le_total : Total index_le.
Proof. unfold index_le. intros x y; lia. Qed.

(** The keys of an entity that [process_file] reads. *)
Definition entity_keys : list string := ["word"; "score"; "start"; "end"].

(** The requests a trace holds: endpoint, content type and body of each
    call of [invoke_endpoint], in order. *)
Definition requests (t : list event) : list (string * string * string) :=
  omap (λ ev,
    match ev with
    | EvInvoke name content_type body => Some (name, content_type, body)
    | _ => None
    end) t.

(** ** The summary of [main]

    The two totals [main] prints and the list it builds for its table of
    species; its report itself formats floating-point numbers and is not
    modelled. *)

(** [sum(result['species_count'] for result in results)] *)
Definition total_species (results : list BatchResult) : nat :=
  sum_list (species_count <$> results).

(** [sum(1 for result in results if result['status'] == 'success')] *)
Definition successful_predictions (results : list BatchResult) : nat :=
  length (filter (λ result, status result = "success") results).

Module Summary.

(** One item of [all_entities]. *)
Record entity : Type := {
  text_index : nat;
  species : json;
  confidence : json;
}.

End Summary.

(** The item made of one entity of a result. *)
Definition summary_item (result : BatchResult) (entity : json)
    : M Summary.entity :=
  word ← eval (getitem entity "word");
  score ← eval (getitem entity "score");
  mret {| Summary.text_index := index result; Summary.species := word;
          Summary.confidence := score |}.

(** The two nested loops of [main] that fill [all_entities]. *)
Definition all_entities (results : list BatchResult) : M (list Summary.entity) :=
  for_extend
    (λ result,
      items ← eval (iter (entities result));
      for_append (summary_item result) items)
    results.

(** ** Collaborators used by the examples

    A serializer that always works, a runtime that answers the first call
    and refuses every other, and a decoder that finds one species. *)
Definition ecoli : json :=
  JObj (<["word" := JStr "E. coli"]>
       (<["score" := JFloat (S754_finite false 8556839292003942 (-53))]>
       (<["start" := JInt 0]>
       (<["end" := JInt 7]> ∅)))).

Definition dumps_ok (text : string) : res string := Return text.

Definition connection_error : exn :=
  Exn "EndpointConnectionError" "Could not connect to the endpoint URL".

Definition runtime_up (call : nat) (EndpointName ContentType Body : string)
    : res string :=
  Return Body.

Definition runtime_down (call : nat) (EndpointName ContentType Body : string)
    : res string :=
  Raise connection_error.

Definition runtime_first (call : nat) (EndpointName ContentType Body : string)
    : res string :=
  match call with
  | 0 => Return Body
  | _ => Raise connection_error
  end.

(** One species for the text ["x"], none for ["y"], three for ["xxx"], and
    an answer that is no list for any other text. *)
Definition loads_ecoli (response : string) : res json :=
  if decide (response = "x") then Return (JArr [ecoli])
  else if decide (response = "y") then Return (JArr [])
  else if decide (response = "xxx") then Return (JArr [ecoli; ecoli; ecoli])
  else Return (JInt 42).

Definition no_fault (task : nat) : option exn := None.

(** The pool raises [e] for the task [j] and runs every other task. *)
Definition fault_at (j : nat) (e : exn) (task : nat) : option exn :=
  if decide (task = j) then Some e else None.

Definition cancelled : exn := Exn "CancelledError" EmptyString.

Definition read_csv_xy (file_path : string) : res DataFrame :=
  Return [("id", ["1"; "2"]); ("text", ["x"; "y"])].

Definition three_species : BatchResult :=
  {| index := 0; text := "xxx"; entities := JArr [ecoli; ecoli; ecoli];
     species_count := 3; status := "success" |}.

Definition no_species : BatchResult :=
  {| index := 1; text := "y"; entities := JArr []; species_count := 0;
     status := "success" |}.

(** A serializer that refuses the text ["bytes"]. *)
Definition dumps_fussy (text : string) : res string :=
  if decide (text = "bytes")
  then Raise (TypeError "Object of type bytes is not JSON serializable")
  else Return text.

Definition read_csv_missing (file_path : string) : res DataFrame :=
  Raise (Exn "FileNotFoundError" "No such file or directory").

(** A result whose entities are the object an endpoint answered. *)
Definition object_answer : BatchResult :=
  {| index := 0; text := "x";
     entities := JObj (<["error" := JStr "model not loaded"]> ∅);
     species_count := 1; status := "success" |}.

(** A result whose second entity has no key ['word']. *)
Definition nameless_species : BatchResult :=
  {| index := 2; text := "xy";
     entities := JArr [ecoli; JObj (<["score" := JInt 1]> ∅)];
     species_count := 2; status := "success" |}.

(** ** The class *)
Section OpenMedSpeciesDetector.

(** [self.endpoint_name] *)
Variable endpoint_name : string.
(** [json.dumps({"inputs": text})] *)
Variable json_dumps : string → res string.
(** The answer of [self.runtime.invoke_endpoint(EndpointName, ContentType,
    Body)] to the call made for the task of the given number; the service
    may answer two calls with the same body differently. *)
Variable response : Type.
Variable invoke_endpoint : nat → string → string → string → res response.
(** [json.loads(response['Body'].read().decode())] *)
Variable read_decode_loads : response → res json.
(** A fault of the pool itself for the task of the given number (a
    cancelled or broken future): [future.result()] raises it and the task
    does not run. *)
Variable pool_fault : nat → option exn.
(** [pd.read_csv(file_path)] *)
Variable read_csv : string → res DataFrame.
(** [f"{end_time - start_time:.2f}"], from the two readings of the clock *)
Variable elapsed : string.

(** [predict_single(self, text)]; [call] numbers the invocation for the
    runtime. *)
Definition predict_single (call : nat) (text : string) : M json :=
  try_except
    (payload ← eval (json_dumps text);
     response ←
       (emit (EvInvoke endpoint_name "application/json" payload);;
        eval (invoke_endpoint call endpoint_name "application/json" payload));
     result ← eval (read_decode_loads response);
     mret result)
    (λ e,
      print ("Error processing text: " +:+ str e);;
      mret (JArr [])).

(** [executor.submit(self.predict_single, text)] for the [i]-th text:
    what the future holds once it is done. *)
Definition submit (i : nat) (text : string) : M json :=
  match pool_fault i with
  | Some e => raise e
  | None => predict_single i text
  end.

(** The body of the collection loop for one completed future.  The events
    of a task enter the trace when its future is collected: the trace of a
    batch lists them task after task in the order of completion, one of the
    interleavings the threads allow. *)
Definition collect (item : M json * (nat * string)) : M BatchResult :=
  let '(future, (text_index, original_text)) := item in
  try_except
    (entities ← future;
     n ← eval (len entities);
     mret {| index := text_index; text := original_text;
             entities := entities; species_count := n;
             status := "success" |})
    (λ e,
      mret {| index := text_index; text := original_text;
              entities := JArr []; species_count := 0;
              status := "error: " +:+ str e |}).

(** [predict_batch(self, texts, max_workers=5)]; [completion] is the order
    in which [as_completed] yields the futures. *)
Definition predict_batch (texts : list string) (max_workers : option Z)
    (completion : list nat) : M (list BatchResult) :=
  let max_workers := default 5%Z max_workers in
  ThreadPoolExecutor max_workers;;
  let future_to_text := imap (λ i text, (submit i text, (i, text))) texts in
  results ← for_append collect (as_completed future_to_text completion);
  mret (sort_by_index results).

(** The states the pool of [predict_batch] goes through: the executor is
    built with [max_workers] workers, 5 when the caller gives none, and
    every text is submitted to it. *)
Definition predict_batch_pool (texts : list string) (max_workers : option Z)
    (s : Pool.state) : Prop :=
  let max_workers := default 5%Z max_workers in
  rtc (Pool.step (Z.to_nat max_workers)) (Pool.init (length texts)) s.

(** The row made of one entity of a result. *)
Definition entity_row (result : BatchResult) (entity : json) : M Row :=
  word ← eval (getitem entity "word");
  score ← eval (getitem entity "score");
  start ← eval (getitem entity "start");
  end_ ← eval (getitem entity "end");
  mret {| original_index := index result; original_text := text result;
          species := word; confidence := score;
          start_position := start; end_position := end_;
          row_status := status result |}.

(** The two nested loops that fill [processed_data]. *)
Definition flatten (results : list BatchResult) : M (list Row) :=
  for_extend
    (λ result,
      items ← eval (iter (entities result));
      for_append (entity_row result) items)
    results.

(** [process_file(self, file_path, text_column='text')] *)
Definition process_file (file_path : string) (text_column : option string)
    (completion : list nat) : M (list Row) :=
  let text_column := default "text" text_column in
  df ← (emit (EvReadCsv file_path);; eval (read_csv file_path));
  if decide (text_column ∉ columns df)
  then raise (ValueError ("Column '" +:+ text_column +:+ "' not found in file"))
  else
    texts ← eval (column_tolist df text_column);
    print ("Processing " +:+ pretty (length texts) +:+ " texts...");;
    results ← predict_batch texts None completion;
    print ("Processing completed in " +:+ elapsed +:+ " seconds");;
    processed_data ← flatten results;
    mret processed_data.

(** The result [collect] wraps a completed future into. *)
Definition collected (item : M json * (nat * string)) : BatchResult :=
  let '(future, (i, t)) := item in
  let error e :=
    {| index := i; text := t; entities := JArr []; species_count := 0;
       status := "error: " +:+ str e |} in
  match outcome future with
  | Return v =>
      match len v with
      | Return n =>
          {| index := i; text := t; entities := v; species_count := n;
             status := "success" |}
      | Raise e => error e
      end
  | Raise e => error e
  end.

(** The result for the [i]-th text. *)
Definition batch_result (i : nat) (t : string) : BatchResult :=
  collected (submit i t, (i, t)).

(** One of the three steps of the request of [predict_single] raises. *)
Inductive request_fails (call : nat) (text : string) (e : exn) : Prop :=
  | fails_dumps :
      json_dumps text = Raise e → request_fails call text e
  | fails_invoke payload :
      json_dumps text = Return payload →
      invoke_endpoint call endpoint_name "application/json" payload = Raise e →
      request_fails call text e
  | fails_decode payload r :
      json_dumps text = Return payload →
      invoke_endpoint call endpoint_name "application/json" payload = Return r →
      read_decode_loads r = Raise e →
      request_fails call text e.

(** An entity with the four keys [process_file] reads. *)
Definition is_entity (v : json) : Prop :=
  ∀ key, key ∈ entity_keys → ∃ x, getitem v key = Return x.

(** ** Computations: equations *)

Lemma bind_Return {A B} (f : A → M B) (m : M A) a :
  outcome m = Return a → m ≫= f = (trace m ++ trace (f a), outcome (f a)).
Proof. unfold mbind, M_bind, outcome, trace. by intros ->. Qed.

Lemma bind_Raise {A B} (f : A → M B) (m : M A) e :
  outcome m = Raise e → m ≫= f = (trace m, Raise e).
Proof. unfold mbind, M_bind, outcome, trace. by intros ->. Qed.

Lemma outcome_bind_Return {A B} (f : A → M B) (m : M A) b :
  outcome (m ≫= f) = Return b ↔
  ∃ a, outcome m = Return a ∧ outcome (f a) = Return b.
Proof.
  destruct m as [t [a|e]]; unfold mbind, M_bind, outcome; simpl.
  - split; [eauto | by intros (? & [= <-] & ?)].
  - split; [done | by intros (? & [=] & _)].
Qed.

Lemma try_except_Return {A} (body : M A) handler a :
  outcome body = Return a → try_except body handler = body.
Proof. unfold try_except, outcome. by intros ->. Qed.

Lemma try_except_Raise {A} (body : M A) handler e :
  outcome body = Raise e →
  try_except body handler = (trace body ++ trace (handler e), outcome (handler e)).
Proof. unfold try_except, outcome, trace. by intros ->. Qed.

Lemma for_append_Return {A B} (body : A → M B) (g : A → B) xs :
  (∀ x, outcome (body x) = Return (g x)) →
  outcome (for_append body xs) = Return (g <$> xs).
Proof.
  intros Hbody. induction xs as [|x xs IH]; [done|].
  cbn [for_append]. rewrite (bind_Return _ _ _ (Hbody x)). cbn [outcome snd].
  by rewrite (bind_Return _ _ _ IH).
Qed.

(** ** [predict_single] *)

Lemma predict_single_cases call text :
  (∃ v, outcome (predict_single call text) = Return v ∧
        (∀ e, ¬ request_fails call text e)) ∨
  (∃ e t, request_fails call text e ∧
          predict_single call text =
            (t ++ [EvPrint ("Error processing text: " +:+ str e)],
             Return (JArr []))).
Proof.
  unfold predict_single.
  destruct (json_dumps text) as [payload|e] eqn:Hd.
  2:{ right. exists e, []. split; [by constructor|]. reflexivity. }
  destruct (invoke_endpoint call endpoint_name "application/json" payload)
    as [r|e] eqn:Hi.
  2:{ right. exists e, [EvInvoke endpoint_name "application/json" payload].
      split; [by econstructor 2|].
      unfold try_except, mbind, M_bind, eval, emit, print; simpl.
      rewrite Hi. reflexivity. }
  destruct (read_decode_loads r) as [v|e] eqn:Hl.
  2:{ right. exists e, [EvInvoke endpoint_name "application/json" payload].
      split; [by econstructor 3|].
      unfold try_except, mbind, M_bind, eval, emit, print; simpl.
      rewrite Hi; simpl. rewrite Hl. reflexivity. }
  left. exists v. split.
  - unfold try_except, mbind, M_bind, eval, emit, outcome; simpl.
    rewrite Hi; simpl. by rewrite Hl.
  - intros e [H|p H1 H2|p r' H1 H2 H3]; congruence.
Qed.

Lemma predict_single_returns call text :
  ∃ v, outcome (predict_single call text) = Return v.
Proof.
  destruct (predict_single_cases call text) as [(v & Hv & _)|(e & t & _ & ->)];
    eauto.
Qed.

(** C2: whenever serializing the text, calling the endpoint or decoding
    its answer raises, [predict_single] reports the error on the standard
    output and returns the empty list; and whatever these three steps do,
    [predict_single] returns and raises nothing. *)
Theorem predict_single_swallows_errors call text :
  (∀ e, request_fails call text e →
     outcome (predict_single call text) = Return (JArr []) ∧
     last (trace (predict_single call text)) =
       Some (EvPrint ("Error processing text: " +:+ str e))) ∧
  (∀ e, outcome (predict_single call text) ≠ Raise e).
Proof.
  destruct (predict_single_cases call text)
    as [(v & Hv & Hok)|(e' & t & Hfail & Heq)].
  - split; [intros e He; by destruct (Hok e)|]. intros e. by rewrite Hv.
  - split; [|intros e; by rewrite Heq].
    intros e He. rewrite Heq. cbn [outcome trace fst snd].
    rewrite last_snoc. split; [done|]. do 3 f_equal.
    destruct He as [H|p H1 H2|p r H1 H2 H3],
      Hfail as [H'|p' H1' H2'|p' r' H1' H2' H3']; congruence.
Qed.

(** ** The collection loop *)

Lemma collect_collected item :
  collect item = (trace item.1, Return (collected item)).
Proof.
  destruct item as [[t [v|e]] [i txt]]; unfold collect, collected; simpl.
  - destruct (len v) as [n|e] eqn:Hlen;
      unfold try_except, mbind, M_bind, eval, outcome; simpl;
      rewrite Hlen; simpl; by rewrite ?app_nil_r.
  - unfold try_except, mbind, M_bind; simpl. by rewrite app_nil_r.
Qed.

Lemma collected_index fut i t : index (collected (fut, (i, t))) = i.
Proof. unfold collected. destruct (outcome fut) as [v|?]; [destruct (len v)|]; done. Qed.

Lemma collected_text fut i t : text (collected (fut, (i, t))) = t.
Proof. unfold collected. destruct (outcome fut) as [v|?]; [destruct (len v)|]; done. Qed.

(** A result is a success that counts its entities, or an error without
    entities. *)
Lemma collected_shape item :
  (status (collected item) = "success" ∧
   len (entities (collected item)) = Return (species_count (collected item))) ∨
  (∃ e, status (collected item) = "error: " +:+ str e ∧
        entities (collected item) = JArr [] ∧
        species_count (collected item) = 0).
Proof.
  destruct item as [fut [i t]]. unfold collected.
  destruct (outcome fut) as [v|e]; [destruct (len v) as [n|e] eqn:Hlen|];
    simpl; eauto.
Qed.

Lemma for_append_collect items :
  outcome (for_append collect items) = Return (collected <$> items).
Proof.
  apply for_append_Return. intros item. by rewrite collect_collected.
Qed.

Lemma ThreadPoolExecutor_positive max_workers :
  (0 < max_workers)%Z → ThreadPoolExecutor max_workers = ([], Return tt).
Proof. intros. unfold ThreadPoolExecutor. case_decide; [lia|done]. Qed.

Lemma ThreadPoolExecutor_refuses max_workers :
  (max_workers ≤ 0)%Z →
  ThreadPoolExecutor max_workers =
    ([], Raise (ValueError "max_workers must be greater than 0")).
Proof. intros. unfold ThreadPoolExecutor. case_decide; [done|lia]. Qed.

(** What [predict_batch] returns, whatever the order of completion. *)
Lemma predict_batch_outcome texts max_workers completion :
  (0 < default 5 max_workers)%Z →
  outcome (predict_batch texts max_workers completion) =
    Return (sort_by_index (collected <$>
      as_completed (imap (λ i t, (submit i t, (i, t))) texts) completion)).
Proof.
  intros Hpos. unfold predict_batch.
  rewrite (ThreadPoolExecutor_positive _ Hpos).
  erewrite bind_Return by reflexivity. cbn [outcome snd].
  erewrite bind_Return by apply for_append_collect. done.
Qed.

Lemma predict_batch_refuses texts max_workers completion :
  (default 5 max_workers ≤ 0)%Z →
  predict_batch texts max_workers completion =
    ([], Raise (ValueError "max_workers must be greater than 0")).
Proof.
  intros Hneg. unfold predict_batch.
  by rewrite (ThreadPoolExecutor_refuses _ Hneg).
Qed.

(** ** Order of completion *)

Lemma as_completed_seq {A} (pre fs : list A) :
  as_completed (pre ++ fs) (seq (length pre) (length fs)) = fs.
Proof.
  unfold as_completed. revert pre. induction fs as [|f fs IH]; intros pre; [done|].
  simpl. rewrite list_lookup_middle by done. simpl. f_equal.
  specialize (IH (pre ++ [f])). rewrite length_app, <- (assoc_L (++)) in IH.
  simpl in IH. by rewrite Nat.add_1_r in IH.
Qed.

Lemma as_completed_Permutation {A} (fs : list A) completion :
  completion ≡ₚ seq 0 (length fs) → as_completed fs completion ≡ₚ fs.
Proof.
  intros Hperm. unfold as_completed. rewrite Hperm.
  apply (reflexive_eq (R:=Permutation)), (as_completed_seq [] fs).
Qed.

Lemma imap_batch_result_sorted (texts : list string) :
  StronglySorted index_le (imap batch_result texts).
Proof.
  assert (∀ k (l : list string),
    StronglySorted index_le (imap (λ i, batch_result (k + i)) l)) as Hgen.
  { intros k l. revert k. induction l as [|t l IH]; intros k; [constructor|].
    cbn [imap]. constructor.
    - specialize (IH (S k)). erewrite imap_ext; [exact IH|].
      intros i x _; simpl. by rewrite Nat.add_succ_r.
    - apply Forall_forall. intros r [i [t' [-> _]]]%elem_of_lookup_imap.
      unfold index_le, batch_result, compose. rewrite !collected_index. lia. }
  apply (Hgen 0).
Qed.

(** Sorting by index undoes the order of completion. *)
Lemma predict_batch_sorted texts max_workers completion :
  (0 < default 5 max_workers)%Z →
  completion ≡ₚ seq 0 (length texts) →
  outcome (predict_batch texts max_workers completion) =
    Return (imap batch_result texts).
Proof.
  intros Hpos Hperm. rewrite predict_batch_outcome by done. f_equal.
  set (futures := imap (λ i t, (submit i t, (i, t))) texts).
  assert (collected <$> as_completed futures completion
          ≡ₚ imap batch_result texts) as Hres.
  { rewrite as_completed_Permutation
      by (unfold futures; by rewrite length_imap).
    unfold futures. by rewrite fmap_imap. }
  apply StronglySorted_unique_strong with (R := index_le).
  - intros x1 x2 Hx1 Hx2 Hle1 Hle2.
    unfold sort_by_index in Hx1. rewrite merge_sort_Permutation, Hres in Hx1.
    apply elem_of_lookup_imap in Hx1 as (i1 & t1 & -> & Ht1).
    apply elem_of_lookup_imap in Hx2 as (i2 & t2 & -> & Ht2).
    unfold index_le, batch_result in Hle1, Hle2.
    rewrite !collected_index in Hle1, Hle2.
    assert (i1 = i2) as -> by lia. congruence.
  - apply StronglySorted_merge_sort; apply _.
  - apply imap_batch_result_sorted.
  - unfold sort_by_index. by rewrite merge_sort_Permutation.
Qed.

(** ** [predict_batch] *)

(** C1: for a positive bound and any order of completion of the submitted
    futures, [predict_batch] returns one result per text, and the result
    at position [i] has index [i] and the [i]-th text. *)
Theorem predict_batch_preserves_order texts max_workers completion :
  (0 < default 5 max_workers)%Z →
  completion ≡ₚ seq 0 (length texts) →
  ∃ results,
    outcome (predict_batch texts max_workers completion) = Return results ∧
    length results = length texts ∧
    ∀ i, i < length texts →
      ∃ r, results !! i = Some r ∧ index r = i ∧ texts !! i = Some (text r).
Proof.
  intros Hpos Hperm. exists (imap batch_result texts).
  split; [by apply predict_batch_sorted|]. split; [by rewrite length_imap|].
  intros i Hi. destruct (lookup_lt_is_Some_2 texts i Hi) as [t Ht].
  exists (batch_result i t). rewrite list_lookup_imap, Ht.
  unfold batch_result. by rewrite collected_index, collected_text.
Qed.

Lemma batch_result_swallowed i t :
  pool_fault i = None →
  (∃ e, request_fails i t e) →
  batch_result i t =
    {| index := i; text := t; entities := JArr []; species_count := 0;
       status := "success" |}.
Proof.
  intros Hpool [e He]. unfold batch_result, collected, submit. rewrite Hpool.
  destruct (predict_single_cases i t) as [(v & _ & Hok)|(e' & tr & _ & ->)];
    [by destruct (Hok e)|done].
Qed.

(** C3: when the request of [predict_single] fails for every text and the
    pool has no fault of its own, every result of the batch is a
    ['success'] with no entity and a count of zero. *)
Theorem failing_predictor_yields_success texts max_workers completion :
  (∀ call text, ∃ e, request_fails call text e) →
  (∀ i, pool_fault i = None) →
  (0 < default 5 max_workers)%Z →
  completion ≡ₚ seq 0 (length texts) →
  ∃ results,
    outcome (predict_batch texts max_workers completion) = Return results ∧
    length results = length texts ∧
    Forall (λ r, status r = "success" ∧ entities r = JArr [] ∧
                 species_count r = 0) results.
Proof.
  intros Hfail Hpool Hpos Hperm. exists (imap batch_result texts).
  split; [by apply predict_batch_sorted|]. split; [by rewrite length_imap|].
  apply Forall_forall. intros r (i & t & -> & _)%elem_of_lookup_imap.
  by rewrite batch_result_swallowed.
Qed.

Lemma predict_batch_results texts max_workers completion results :
  outcome (predict_batch texts max_workers completion) = Return results →
  Forall (λ r, ∃ item, r = collected item) results.
Proof.
  intros Hres. destruct (decide (0 < default 5 max_workers)%Z) as [Hpos|Hneg].
  - rewrite predict_batch_outcome in Hres by done. injection Hres as <-.
    apply Forall_forall. intros r Hr. unfold sort_by_index in Hr.
    rewrite merge_sort_Permutation in Hr.
    apply list_elem_of_fmap in Hr as (item & -> & _). by exists item.
  - rewrite predict_batch_refuses in Hres by lia. done.
Qed.

(** C8: in every result [predict_batch] returns, the count is the length
    of the entities, and a result whose status begins with ['error:'] has
    the empty list of entities and a count of zero. *)
Theorem species_count_is_len texts max_workers completion results :
  outcome (predict_batch texts max_workers completion) = Return results →
  Forall (λ r,
    len (entities r) = Return (species_count r) ∧
    (String.prefix "error:" (status r) = true →
     entities r = JArr [] ∧ species_count r = 0)) results.
Proof.
  intros Hres%predict_batch_results. eapply Forall_impl; [exact Hres|].
  intros r [item ->].
  destruct (collected_shape item) as [[-> Hlen]|(e & _ & -> & ->)]; done.
Qed.

Lemma as_completed_nil {A} completion : as_completed (@nil A) completion = [].
Proof. unfold as_completed. induction completion; done. Qed.

(** C10: for a positive bound, [predict_batch] returns the empty list for
    the empty list of texts, and does nothing else. *)
Theorem predict_batch_empty max_workers completion :
  (0 < default 5 max_workers)%Z →
  predict_batch [] max_workers completion = ([], Return []).
Proof.
  intros Hpos. unfold predict_batch.
  rewrite (ThreadPoolExecutor_positive _ Hpos). cbn [imap].
  by rewrite as_completed_nil.
Qed.

(** ** [process_file] *)

(** C6: when the file read has no column of the configured name,
    [process_file] raises an error whose message names that column, having
    done nothing but read the file: it prints nothing and sends no
    request. *)
Theorem process_file_missing_column file_path text_column completion df :
  read_csv file_path = Return df →
  default "text" text_column ∉ columns df →
  process_file file_path text_column completion =
    ([EvReadCsv file_path],
     Raise (ValueError ("Column '" +:+ default "text" text_column +:+
                        "' not found in file"))).
Proof.
  intros Hread Hmissing. unfold process_file.
  erewrite bind_Return.
  2:{ unfold mbind, M_bind, emit, eval, outcome; simpl. exact Hread. }
  rewrite decide_True by done.
  unfold mbind, M_bind, emit, eval, trace, raise; simpl. done.
Qed.

(** ** The flattening loops *)

Lemma for_append_inv {A B} (body : A → M B) xs ys :
  outcome (for_append body xs) = Return ys ↔
  Forall2 (λ x y, outcome (body x) = Return y) xs ys.
Proof.
  revert ys. induction xs as [|x xs IH]; intros ys; cbn [for_append].
  - split; [intros [= <-]; constructor | by intros ->%Forall2_nil_inv_l].
  - rewrite outcome_bind_Return. split.
    + intros (y & Hy & (ys' & Hys & [= <-])%outcome_bind_Return).
      constructor; [done | by apply IH].
    + intros (y & ys' & Hy & Hys & ->)%Forall2_cons_inv_l.
      exists y. split; [done|]. apply outcome_bind_Return.
      exists ys'. split; [by apply IH | done].
Qed.

Lemma for_extend_inv {A B} (body : A → M (list B)) xs zs :
  outcome (for_extend body xs) = Return zs ↔
  ∃ groups, zs = concat groups ∧
            Forall2 (λ x g, outcome (body x) = Return g) xs groups.
Proof.
  revert zs. induction xs as [|x xs IH]; intros zs; cbn [for_extend].
  - split.
    + intros [= <-]. exists []. split; [done | constructor].
    + by intros (groups & -> & ->%Forall2_nil_inv_l).
  - rewrite outcome_bind_Return. split.
    + intros (g & Hg & (zs' & Hzs & [= <-])%outcome_bind_Return).
      apply IH in Hzs as (groups & -> & Hgroups).
      exists (g :: groups). split; [done | by constructor].
    + intros (groups & -> & (g & groups' & Hg & Hgroups & ->)%Forall2_cons_inv_l).
      exists g. split; [done|]. apply outcome_bind_Return.
      exists (concat groups'). split; [apply IH; eauto | done].
Qed.

Lemma trace_bind_nil {A B} (f : A → M B) (m : M A) :
  trace m = [] → (∀ a, trace (f a) = []) → trace (m ≫= f) = [].
Proof.
  intros Hm Hf. unfold mbind, M_bind, trace in *.
  destruct m as [t [a|e]]; simpl in *; subst; [apply Hf | done].
Qed.

Lemma for_append_trace {A B} (body : A → M B) xs :
  (∀ x, trace (body x) = []) → trace (for_append body xs) = [].
Proof.
  intros Hbody. induction xs as [|x xs IH]; [done|]. cbn [for_append].
  apply trace_bind_nil; [done|]. intros y. by apply trace_bind_nil.
Qed.

Lemma for_extend_trace {A B} (body : A → M (list B)) xs :
  (∀ x, trace (body x) = []) → trace (for_extend body xs) = [].
Proof.
  intros Hbody. induction xs as [|x xs IH]; [done|]. cbn [for_extend].
  apply trace_bind_nil; [done|]. intros y. by apply trace_bind_nil.
Qed.

Lemma entity_row_trace result entity : trace (entity_row result entity) = [].
Proof.
  unfold entity_row. repeat (apply trace_bind_nil; [done|intros ?]). done.
Qed.

(** The loops print nothing and send no request. *)
Lemma flatten_trace results : trace (flatten results) = [].
Proof.
  apply for_extend_trace. intros result. apply trace_bind_nil; [done|].
  intros items. apply for_append_trace, entity_row_trace.
Qed.

Lemma iter_len v items : iter v = Return items → len v = Return (length items).
Proof.
  destruct v as [| | | |s|l|m]; try done; intros [= <-]; simpl; f_equal.
  - rewrite length_fmap. induction s; simpl; [done | by f_equal].
  - by rewrite length_fmap, length_map_to_list.
Qed.

Lemma entity_row_inv result entity row :
  outcome (entity_row result entity) = Return row ↔
  ∃ word score start end_,
    getitem entity "word" = Return word ∧
    getitem entity "score" = Return score ∧
    getitem entity "start" = Return start ∧
    getitem entity "end" = Return end_ ∧
    row = {| original_index := index result; original_text := text result;
             species := word; confidence := score;
             start_position := start; end_position := end_;
             row_status := status result |}.
Proof.
  unfold entity_row, mbind, M_bind, eval, outcome; simpl.
  destruct (getitem entity "word") as [w|?]; simpl;
    [|split; [done | by intros (? & ? & ? & ? & [=] & _)]].
  destruct (getitem entity "score") as [sc|?]; simpl;
    [|split; [done | by intros (? & ? & ? & ? & _ & [=] & _)]].
  destruct (getitem entity "start") as [st|?]; simpl;
    [|split; [done | by intros (? & ? & ? & ? & _ & _ & [=] & _)]].
  destruct (getitem entity "end") as [en|?]; simpl;
    [|split; [done | by intros (? & ? & ? & ? & _ & _ & _ & [=] & _)]].
  split.
  - intros [= <-]. by exists w, sc, st, en.
  - by intros (? & ? & ? & ? & [= <-] & [= <-] & [= <-] & [= <-] & ->).
Qed.

Lemma entity_row_carries result entity row :
  outcome (entity_row result entity) = Return row →
  original_index row = index result ∧ original_text row = text result ∧
  row_status row = status result.
Proof. by intros (? & ? & ? & ? & _ & _ & _ & _ & ->)%entity_row_inv. Qed.

Lemma entity_row_is_entity result entity :
  is_entity entity → ∃ row, outcome (entity_row result entity) = Return row.
Proof.
  intros He.
  destruct (He "word") as [w Hw]; [repeat constructor|].
  destruct (He "score") as [sc Hsc]; [repeat constructor|].
  destruct (He "start") as [st Hst]; [repeat constructor|].
  destruct (He "end") as [en Hen]; [repeat constructor|].
  eexists. apply entity_row_inv. by exists w, sc, st, en.
Qed.

(** The rows one result contributes. *)
Lemma flatten_group result group :
  outcome (items ← eval (iter (entities result));
           for_append (entity_row result) items) = Return group ↔
  ∃ items, iter (entities result) = Return items ∧
    Forall2 (λ entity row, outcome (entity_row result entity) = Return row)
      items group.
Proof.
  rewrite outcome_bind_Return. unfold eval, outcome at 1; simpl.
  by setoid_rewrite for_append_inv.
Qed.

(** C5: when the two loops end, the table is made, result after result,
    of one row per entity of the result, each with the index and the
    text of that result: a result with [k] entities gives [k] rows and a
    result without entities none.  The loops end whenever every result
    holds a list of entities that have the four keys read. *)
Theorem flatten_one_row_per_entity results :
  (∀ rows, outcome (flatten results) = Return rows →
     ∃ groups, rows = concat groups ∧
       Forall2 (λ result group,
         (∃ items, iter (entities result) = Return items ∧
            Forall2 (λ entity row,
              outcome (entity_row result entity) = Return row) items group) ∧
         len (entities result) = Return (length group) ∧
         Forall (λ row, original_index row = index result ∧
                        original_text row = text result) group)
         results groups) ∧
  (Forall (λ result, ∃ l, entities result = JArr l ∧ Forall is_entity l)
     results →
   ∃ rows, flatten results = ([], Return rows)).
Proof.
  split.
  - intros rows (groups & -> & Hgroups)%for_extend_inv.
    exists groups. split; [done|]. eapply Forall2_impl; [exact Hgroups|].
    intros result group (items & Hiter & Hrows)%flatten_group.
    split; [by exists items|]. split.
    + rewrite (iter_len _ _ Hiter). by rewrite (Forall2_length _ _ _ Hrows).
    + apply Forall_forall. intros row [k Hk]%list_elem_of_lookup.
      destruct (Forall2_lookup_r _ _ _ _ _ Hrows Hk) as (entity & _ & Hentity).
      by destruct (entity_row_carries _ _ _ Hentity) as (? & ? & _).
  - intros Hwf.
    assert (∃ rows, outcome (flatten results) = Return rows) as [rows Hrows].
    { induction Hwf as [|result results (l & Hl & Hents) _ (rows & IH)].
      - by exists [].
      - assert (∃ group, Forall2 (λ entity row,
                  outcome (entity_row result entity) = Return row) l group)
          as [group Hgroup].
        { clear Hl. induction Hents as [|entity l He _ (group & IHl)].
          - exists []. constructor.
          - destruct (entity_row_is_entity result entity He) as [row Hrow].
            exists (row :: group). by constructor. }
        apply for_extend_inv in IH as (groups & -> & Hgroups).
        exists (concat (group :: groups)). apply for_extend_inv.
        exists (group :: groups). split; [done|]. constructor; [|done].
        apply flatten_group. exists l. by rewrite Hl. }
    exists rows. rewrite <- Hrows, <- (flatten_trace results).
    apply surjective_pairing.
Qed.

Lemma process_file_inv file_path text_column completion rows :
  outcome (process_file file_path text_column completion) = Return rows →
  ∃ df texts results,
    read_csv file_path = Return df ∧
    default "text" text_column ∈ columns df ∧
    column_tolist df (default "text" text_column) = Return texts ∧
    outcome (predict_batch texts None completion) = Return results ∧
    outcome (flatten results) = Return rows.
Proof.
  unfold process_file. intros (df & Hdf & Hrest)%outcome_bind_Return.
  apply outcome_bind_Return in Hdf as ([] & _ & Hdf).
  case_decide as Hcol; [done|].
  apply outcome_bind_Return in Hrest as (texts & Htexts & Hrest).
  apply outcome_bind_Return in Hrest as ([] & _ & Hrest).
  apply outcome_bind_Return in Hrest as (results & Hresults & Hrest).
  apply outcome_bind_Return in Hrest as ([] & _ & Hrest).
  apply outcome_bind_Return in Hrest as (data & Hdata & [= <-]).
  by exists df, texts, results.
Qed.

(** C9: every row of the table [process_file] returns has the status
    ['success']: a result with an ['error: ...'] status has no entity,
    and so no row. *)
Theorem process_file_rows_are_success file_path text_column completion rows :
  outcome (process_file file_path text_column completion) = Return rows →
  Forall (λ row, row_status row = "success") rows.
Proof.
  intros (df & texts & results & _ & _ & _ & Hresults & Hrows)%process_file_inv.
  apply predict_batch_results in Hresults.
  apply for_extend_inv in Hrows as (groups & -> & Hgroups).
  apply Forall_concat. revert Hresults.
  induction Hgroups as [|result group results groups Hgroup _ IH];
    intros Hresults; [constructor|].
  apply Forall_cons in Hresults as [[item ->] Hresults].
  constructor; [|by apply IH].
  apply flatten_group in Hgroup as (items & Hiter & Hrows).
  destruct (collected_shape item) as [[Hok _]|(e & _ & Hnone & _)].
  - eapply Forall2_Forall_r; [exact Hrows|]. apply Forall_forall.
    intros entity _ row Hrow.
    destruct (entity_row_carries _ _ _ Hrow) as (_ & _ & ->). done.
  - rewrite Hnone in Hiter. injection Hiter as <-.
    apply Forall2_nil_inv_l in Hrows as ->. constructor.
Qed.

End OpenMedSpeciesDetector.

(** ** A fault of the pool *)
Section WorkerFault.

Variable endpoint_name : string.
Variable json_dumps : string → res string.
Variable response : Type.
Variable invoke_endpoint : nat → string → string → string → res response.
Variable read_decode_loads : response → res json.

#[local] Abbreviation batch :=
  (predict_batch endpoint_name json_dumps response invoke_endpoint
     read_decode_loads).
#[local] Abbreviation result_of :=
  (batch_result endpoint_name json_dumps response invoke_endpoint
     read_decode_loads).

Lemma batch_result_fault_at j e t :
  result_of (fault_at j e) j t =
    {| index := j; text := t; entities := JArr []; species_count := 0;
       status := "error: " +:+ str e |}.
Proof.
  unfold batch_result, collected, submit, fault_at.
  by rewrite decide_True by done.
Qed.

Lemma batch_result_fault_elsewhere j e i t :
  i ≠ j → result_of (fault_at j e) i t = result_of no_fault i t.
Proof.
  intros Hij. unfold batch_result, collected, submit, fault_at, no_fault.
  by rewrite decide_False by done.
Qed.

(** C4: when the pool raises [e] for the task of one text and for no
    other, the result of that text is an ['error: ...'] with the message
    of [e], no entity and a count of zero, and the result of every other
    text is the one the batch returns without the fault. *)
Theorem worker_fault_is_isolated j e t texts max_workers completion :
  (0 < default 5 max_workers)%Z →
  completion ≡ₚ seq 0 (length texts) →
  texts !! j = Some t →
  ∃ faulty clean,
    outcome (batch (fault_at j e) texts max_workers completion)
      = Return faulty ∧
    outcome (batch no_fault texts max_workers completion) = Return clean ∧
    faulty !! j =
      Some {| index := j; text := t; entities := JArr [];
              species_count := 0; status := "error: " +:+ str e |} ∧
    ∀ i, i ≠ j → faulty !! i = clean !! i.
Proof.
  intros Hpos Hperm Hj.
  exists (imap (result_of (fault_at j e)) texts),
         (imap (result_of no_fault) texts).
  split; [by apply predict_batch_sorted|].
  split; [by apply predict_batch_sorted|]. split.
  - by rewrite list_lookup_imap, Hj, <- batch_result_fault_at.
  - intros i Hij. rewrite !list_lookup_imap.
    destruct (texts !! i) as [ti|]; [simpl|done].
    by rewrite batch_result_fault_elsewhere.
Qed.

End WorkerFault.

(** ** Runs of the pool *)
Section PoolRuns.

Variable max_workers : nat.

(** No task is lost or repeated by a step. *)
Lemma pool_step_tasks s s' :
  Pool.step max_workers s s' →
  Pool.queued s' ++ Pool.running s' ++ Pool.finished s'
    ≡ₚ Pool.queued s ++ Pool.running s ++ Pool.finished s.
Proof.
  destruct 1 as [i q r d _|i q r1 r2 d]; simpl;
    rewrite <- !(assoc_L (++)); simpl;
    rewrite <- !Permutation_middle, ?app_nil_r; done.
Qed.

Lemma pool_run_tasks s s' :
  rtc (Pool.step max_workers) s s' →
  Pool.queued s' ++ Pool.running s' ++ Pool.finished s'
    ≡ₚ Pool.queued s ++ Pool.running s ++ Pool.finished s.
Proof.
  induction 1 as [|s1 s2 s3 Hstep _ IH]; [done|].
  by rewrite IH, (pool_step_tasks _ _ Hstep).
Qed.

(** The tasks of a run to the end finish in an order that is a
    permutation of the order of submission. *)
Lemma pool_completes_Permutation n order :
  Pool.completes max_workers n order → order ≡ₚ seq 0 n.
Proof.
  intros Hrun%pool_run_tasks. simpl in Hrun. by rewrite !app_nil_r in Hrun.
Qed.

Lemma pool_step_fuel s s' :
  Pool.step max_workers s s' → Pool.fuel s' < Pool.fuel s.
Proof.
  destruct 1 as [i q r d _|i q r1 r2 d]; unfold Pool.fuel; simpl;
    rewrite ?length_app; simpl; lia.
Qed.

(** A pool with a worker is never stuck before it is idle. *)
Lemma pool_progress s :
  0 < max_workers → ¬ Pool.idle s → ∃ s', Pool.step max_workers s s'.
Proof.
  intros Hpos Hbusy. destruct s as [q r d].
  destruct r as [|i r].
  - destruct q as [|i q]; [by destruct Hbusy|].
    eexists. by apply Pool.step_start.
  - eexists. apply (Pool.step_finish max_workers i q [] r d).
Qed.

(** Every run can be continued to the end. *)
Lemma pool_terminates s :
  0 < max_workers →
  ∃ order, rtc (Pool.step max_workers) s (Pool.State [] [] order).
Proof.
  intros Hpos. remember (Pool.fuel s) as k eqn:Hk. revert s Hk.
  induction (lt_wf k) as [k _ IH]. intros s ->.
  destruct (decide (Pool.queued s = [] ∧ Pool.running s = [])) as [[Hq Hr]|Hbusy].
  - exists (Pool.finished s). destruct s; simpl in *; by subst.
  - destruct (pool_progress s Hpos Hbusy) as [s' Hstep].
    destruct (IH (Pool.fuel s') (pool_step_fuel _ _ Hstep) s' eq_refl)
      as [order Hrun].
    exists order. by eapply rtc_l.
Qed.

(** A step never puts more tasks to run than the pool has workers. *)
Lemma pool_step_bounded s s' :
  Pool.step max_workers s s' →
  (length (Pool.running s) ≤ max_workers)%nat →
  (length (Pool.running s') ≤ max_workers)%nat.
Proof.
  destruct 1 as [i q r d Hfree|i q r1 r2 d]; simpl;
    rewrite !length_app; simpl; lia.
Qed.

Lemma pool_run_bounded n s :
  rtc (Pool.step max_workers) (Pool.init n) s →
  (length (Pool.running s) ≤ max_workers)%nat.
Proof.
  revert s. apply rtc_ind_r; [simpl; lia|].
  intros s1 s2 _ Hstep Hs1. by eapply pool_step_bounded.
Qed.

(** The first [k] tasks can all be started before any of them ends, as
    long as there is a worker for each. *)
Lemma pool_starts n k :
  (k ≤ n)%nat → (k ≤ max_workers)%nat →
  rtc (Pool.step max_workers) (Pool.init n)
    (Pool.State (seq k (n - k)) (seq 0 k) []).
Proof.
  induction k as [|k IH]; intros Hn Hw.
  - rewrite Nat.sub_0_r. apply rtc_refl.
  - eapply rtc_r; [apply IH; lia|].
    replace (seq k (n - k)) with (k :: seq (S k) (n - S k))
      by (replace (n - k) with (S (n - S k)) by lia; reflexivity).
    replace (seq 0 (S k)) with (seq 0 k ++ [k]) by (by rewrite seq_S).
    apply Pool.step_start. rewrite length_seq. lia.
Qed.

End PoolRuns.


(** Only a pool of 5 workers never runs more than 5 tasks and can run 5
    at once. *)
Lemma pool_bound_unique max_workers :
  (∀ n s, rtc (Pool.step max_workers) (Pool.init n) s →
          (length (Pool.running s) ≤ 5)%nat) →
  (∃ n s, rtc (Pool.step max_workers) (Pool.init n) s ∧
          length (Pool.running s) = 5) →
  max_workers = 5.
Proof.
  intros Hmost (n & s & Hrun & Hfive).
  pose proof (pool_run_bounded max_workers n s Hrun) as Hle.
  pose proof (Hmost max_workers _
    (pool_starts max_workers max_workers max_workers (le_n _) (le_n _))) as Hge.
  simpl in Hge. rewrite length_seq in Hge. lia.
Qed.

(** A run of the pool of [predict_batch] to the end is an order of
    completion for which it returns the results in the order of the
    texts. *)
Lemma predict_batch_on_pool endpoint_name json_dumps response
    invoke_endpoint read_decode_loads pool_fault texts max_workers order :
  (0 < default 5 max_workers)%Z →
  predict_batch_pool texts max_workers (Pool.State [] [] order) →
  outcome (predict_batch endpoint_name json_dumps response invoke_endpoint
             read_decode_loads pool_fault texts max_workers order)
  = Return (imap (batch_result endpoint_name json_dumps response
                    invoke_endpoint read_decode_loads pool_fault) texts).
Proof.
  intros Hpos Hrun%pool_completes_Permutation. by apply predict_batch_sorted.
Qed.

(** A run of the pool to the end is an order of completion that
    [predict_batch] puts back in the order of submission. *)
Lemma pool_run_preserves_order endpoint_name json_dumps response
    invoke_endpoint read_decode_loads pool_fault texts max_workers order :
  (0 < max_workers)%Z →
  Pool.completes (Z.to_nat max_workers) (length texts) order →
  outcome (predict_batch endpoint_name json_dumps response invoke_endpoint
             read_decode_loads pool_fault texts (Some max_workers) order)
  = Return (imap (batch_result endpoint_name json_dumps response
                    invoke_endpoint read_decode_loads pool_fault) texts).
Proof.
  intros Hpos Hrun%pool_completes_Permutation. by apply predict_batch_sorted.
Qed.

(** ** Further properties of the class *)
Section Behaviour.

Variable endpoint_name : string.
Variable json_dumps : string → res string.
Variable response : Type.
Variable invoke_endpoint : nat → string → string → string → res response.
Variable read_decode_loads : response → res json.
Variable pool_fault : nat → option exn.
Variable read_csv : string → res DataFrame.
Variable elapsed : string.

#[local] Abbreviation single :=
  (predict_single endpoint_name json_dumps response invoke_endpoint
     read_decode_loads).
#[local] Abbreviation batch :=
  (predict_batch endpoint_name json_dumps response invoke_endpoint
     read_decode_loads pool_fault).
#[local] Abbreviation result_of :=
  (batch_result endpoint_name json_dumps response invoke_endpoint
     read_decode_loads pool_fault).
#[local] Abbreviation future_of :=
  (submit endpoint_name json_dumps response invoke_endpoint
     read_decode_loads pool_fault).
#[local] Abbreviation file :=
  (process_file endpoint_name json_dumps response invoke_endpoint
     read_decode_loads pool_fault read_csv elapsed).

(** *** [predict_single] *)

(** X1: when the three steps of the request succeed, [predict_single]
    returns the decoded answer as it is, having sent one request, of type
    ['application/json'], with the serialized text as body, and printed
    nothing. *)
Theorem predict_single_returns_answer call text payload r v :
  json_dumps text = Return payload →
  invoke_endpoint call endpoint_name "application/json" payload = Return r →
  read_decode_loads r = Return v →
  predict_single endpoint_name json_dumps response invoke_endpoint
    read_decode_loads call text =
    ([EvInvoke endpoint_name "application/json" payload], Return v).
Proof.
  intros Hd Hi Hl.
  unfold predict_single, try_except, mbind, M_bind, eval, emit; simpl.
  rewrite Hd; simpl. rewrite Hi; simpl. by rewrite Hl.
Qed.

(** X2: a text that cannot be serialized is reported and answered with the
    empty list without any request being sent. *)
Theorem predict_single_unserializable call text e :
  json_dumps text = Raise e →
  predict_single endpoint_name json_dumps response invoke_endpoint
    read_decode_loads call text =
    ([EvPrint ("Error processing text: " +:+ str e)], Return (JArr [])).
Proof.
  intros Hd.
  unfold predict_single, try_except, mbind, M_bind, eval, emit, print; simpl.
  by rewrite Hd.
Qed.

(** The requests of one call. *)
Lemma predict_single_requests call text :
  requests (trace (single call text)) =
    match json_dumps text with
    | Return payload => [(endpoint_name, "application/json", payload)]
    | Raise _ => []
    end.
Proof.
  unfold predict_single, try_except, mbind, M_bind, eval, emit, print, trace;
    simpl.
  destruct (json_dumps text) as [payload|e]; simpl; [|done].
  destruct (invoke_endpoint call endpoint_name "application/json" payload)
    as [r|e]; simpl; [|done].
  destruct (read_decode_loads r) as [v|e]; done.
Qed.

(** *** [predict_batch] *)

(** X3: a bound that is not positive makes [predict_batch] raise the
    [ValueError] of the pool before any text is submitted: no request is
    sent and nothing is printed. *)
Theorem predict_batch_rejects_bound texts max_workers completion :
  (default 5 max_workers ≤ 0)%Z →
  batch texts max_workers completion =
    ([], Raise (ValueError "max_workers must be greater than 0")).
Proof. apply predict_batch_refuses. Qed.

(** X4: the list [predict_batch] returns does not depend on the order in
    which the futures complete. *)
Theorem predict_batch_order_irrelevant texts max_workers completion1 completion2 :
  completion1 ≡ₚ seq 0 (length texts) →
  completion2 ≡ₚ seq 0 (length texts) →
  outcome (batch texts max_workers completion1) =
  outcome (batch texts max_workers completion2).
Proof.
  intros H1 H2. destruct (decide (0 < default 5 max_workers)%Z) as [Hpos|Hneg].
  - by rewrite !predict_batch_sorted.
  - by rewrite !predict_batch_refuses by lia.
Qed.

Lemma batch_result_of_answer i t v :
  pool_fault i = None →
  outcome (single i t) = Return v →
  result_of i t =
    match len v with
    | Return n =>
        {| index := i; text := t; entities := v; species_count := n;
           status := "success" |}
    | Raise e =>
        {| index := i; text := t; entities := JArr []; species_count := 0;
           status := "error: " +:+ str e |}
    end.
Proof.
  intros Hpool Hv. unfold batch_result, collected, submit.
  by rewrite Hpool, Hv.
Qed.

(** X5: an answer that has no length (a number, a boolean, [null]) gives
    its text an ['error: ...'] result with the message of the [TypeError] of
    [len], no entity and a count of zero, although the request succeeded. *)
Theorem answer_without_len_is_error texts max_workers completion i t v e :
  (0 < default 5 max_workers)%Z →
  completion ≡ₚ seq 0 (length texts) →
  texts !! i = Some t →
  pool_fault i = None →
  outcome (single i t) = Return v →
  len v = Raise e →
  ∃ results,
    outcome (batch texts max_workers completion) = Return results ∧
    results !! i =
      Some {| index := i; text := t; entities := JArr []; species_count := 0;
              status := "error: " +:+ str e |}.
Proof.
  intros Hpos Hperm Ht Hpool Hv Hlen. eexists.
  split; [by apply predict_batch_sorted|].
  rewrite list_lookup_imap, Ht. simpl.
  by rewrite (batch_result_of_answer _ _ _ Hpool Hv), Hlen.
Qed.

(** X6: an answer that has a length is returned as the entities of its
    text, with that length as count and the status ['success']. *)
Theorem answer_with_len_is_success texts max_workers completion i t v n :
  (0 < default 5 max_workers)%Z →
  completion ≡ₚ seq 0 (length texts) →
  texts !! i = Some t →
  pool_fault i = None →
  outcome (single i t) = Return v →
  len v = Return n →
  ∃ results,
    outcome (batch texts max_workers completion) = Return results ∧
    results !! i =
      Some {| index := i; text := t; entities := v; species_count := n;
              status := "success" |}.
Proof.
  intros Hpos Hperm Ht Hpool Hv Hlen. eexists.
  split; [by apply predict_batch_sorted|].
  rewrite list_lookup_imap, Ht. simpl.
  by rewrite (batch_result_of_answer _ _ _ Hpool Hv), Hlen.
Qed.

(** *** The requests of a batch *)

Lemma for_append_trace_bind {A B} (body : A → M B) xs :
  (∀ x, ∃ y, outcome (body x) = Return y) →
  trace (for_append body xs) = xs ≫= (λ x, trace (body x)).
Proof.
  intros Hbody. induction xs as [|x xs IH]; [done|]. cbn [for_append].
  destruct (Hbody x) as [y Hy]. rewrite (bind_Return _ _ _ Hy).
  cbn [trace fst]. assert (∃ ys, outcome (for_append body xs) = Return ys)
    as [ys Hys].
  { clear IH. induction xs as [|x' xs [ys IH]]; [by exists []|].
    destruct (Hbody x') as [y' Hy']. exists (y' :: ys). cbn [for_append].
    rewrite (bind_Return _ _ _ Hy'). cbn [outcome snd].
    by rewrite (bind_Return _ _ _ IH). }
  rewrite (bind_Return _ _ _ Hys). cbn [trace fst]. rewrite IH.
  simpl. by rewrite app_nil_r.
Qed.

Lemma requests_app t1 t2 : requests (t1 ++ t2) = requests t1 ++ requests t2.
Proof. apply omap_app. Qed.

Lemma requests_bind {A} (f : A → list event) (l : list A) :
  requests (l ≫= f) = l ≫= (λ x, requests (f x)).
Proof.
  induction l as [|x l IH]; [done|].
  by rewrite !bind_cons, requests_app, IH.
Qed.

Lemma imap_bind_ext {A B C} (f : nat → A → B) (g : B → list C)
    (h : A → list C) (l : list A) :
  (∀ i x, g (f i x) = h x) → imap f l ≫= g = l ≫= h.
Proof.
  revert f. induction l as [|x l IH]; intros f Hf; [done|].
  cbn [imap]. rewrite !bind_cons, Hf. f_equal. apply IH. intros i y. apply Hf.
Qed.

Lemma bind_option_list {A B} (f : A → option B) (l : list A) :
  l ≫= (λ x, option_list (f x)) = omap f l.
Proof.
  induction l as [|x l IH]; [done|]. rewrite bind_cons, IH. simpl.
  by destruct (f x).
Qed.

(** The trace of a batch: the traces of the tasks, in the order of
    completion. *)
Lemma predict_batch_trace texts max_workers completion :
  (0 < default 5 max_workers)%Z →
  trace (batch texts max_workers completion) =
    as_completed (imap (λ i t, (future_of i t, (i, t))) texts) completion
      ≫= (λ item, trace item.1).
Proof.
  intros Hpos. unfold predict_batch.
  rewrite (ThreadPoolExecutor_positive _ Hpos).
  erewrite bind_Return by reflexivity. cbn [trace fst]. simpl.
  erewrite bind_Return by apply for_append_collect. cbn [fst]. simpl.
  rewrite app_nil_r, for_append_trace_bind.
  - apply list_bind_ext; [|done]. intros item. by rewrite collect_collected.
  - intros item. eexists. by rewrite collect_collected.
Qed.

Lemma predict_batch_requests texts max_workers completion :
  (0 < default 5 max_workers)%Z →
  completion ≡ₚ seq 0 (length texts) →
  (∀ i, pool_fault i = None) →
  requests (trace (batch texts max_workers completion)) ≡ₚ
    omap (λ text,
      match json_dumps text with
      | Return payload => Some (endpoint_name, "application/json", payload)
      | Raise _ => None
      end) texts.
Proof.
  intros Hpos Hperm Hpool. rewrite predict_batch_trace by done.
  rewrite requests_bind.
  rewrite as_completed_Permutation by (by rewrite length_imap).
  rewrite <- bind_option_list.
  apply (reflexive_eq (R:=Permutation)), imap_bind_ext. intros i t. simpl.
  unfold submit. rewrite Hpool, predict_single_requests.
  by destruct (json_dumps t).
Qed.

(** X7: a batch sends one request for every text that can be serialized,
    to the configured endpoint, of type ['application/json'] and with the
    serialized text as body, and no other request: nothing is retried,
    whether the call fails or not. *)
Theorem one_request_per_text texts max_workers completion :
  (0 < default 5 max_workers)%Z →
  completion ≡ₚ seq 0 (length texts) →
  (∀ i, pool_fault i = None) →
  requests (trace (batch texts max_workers completion)) ≡ₚ
    omap (λ text,
      match json_dumps text with
      | Return payload => Some (endpoint_name, "application/json", payload)
      | Raise _ => None
      end) texts.
Proof. apply predict_batch_requests. Qed.


(** *** Where the results of a batch come from *)

Lemma predict_batch_members texts max_workers completion results :
  outcome (batch texts max_workers completion) = Return results →
  Forall (λ r, ∃ i t, texts !! i = Some t ∧ r = result_of i t) results.
Proof.
  intros Hres. destruct (decide (0 < default 5 max_workers)%Z) as [Hpos|Hneg].
  - rewrite predict_batch_outcome in Hres by done. injection Hres as <-.
    apply Forall_forall. intros r Hr. unfold sort_by_index in Hr.
    rewrite merge_sort_Permutation in Hr.
    apply list_elem_of_fmap in Hr as (item & -> & Hitem).
    unfold as_completed in Hitem.
    apply list_elem_of_omap in Hitem as (k & _ & Hk).
    apply list_lookup_imap_Some in Hk as (t & Ht & ->). by exists k, t.
  - rewrite predict_batch_refuses in Hres by lia. done.
Qed.

Lemma predict_batch_by_index texts max_workers completion results :
  outcome (batch texts max_workers completion) = Return results →
  StronglySorted index_le results.
Proof.
  intros Hres. destruct (decide (0 < default 5 max_workers)%Z) as [Hpos|Hneg].
  - rewrite predict_batch_outcome in Hres by done. injection Hres as <-.
    apply StronglySorted_merge_sort; apply _.
  - rewrite predict_batch_refuses in Hres by lia. done.
Qed.

Lemma result_of_counts i t :
  len (entities (result_of i t)) = Return (species_count (result_of i t)).
Proof.
  unfold batch_result.
  destruct (collected_shape (future_of i t, (i, t)))
    as [[_ Hlen]|(e & _ & -> & ->)]; done.
Qed.

(** *** [process_file] *)

Lemma column_tolist_present (df : DataFrame) key :
  key ∈ columns df → ∃ cells, column_tolist df key = Return cells.
Proof.
  intros Hkey. unfold column_tolist.
  destruct (list_find (λ c, c.1 = key) df) as [[k c]|] eqn:Hfind; [eauto|].
  apply list_find_None in Hfind. unfold columns in Hkey.
  apply list_elem_of_fmap in Hkey as (c & -> & Hc).
  by destruct (proj1 (Forall_forall _ _) Hfind c Hc).
Qed.

Lemma trace_bind_Return {A B} (f : A → M B) (m : M A) a :
  outcome m = Return a → trace (m ≫= f) = trace m ++ trace (f a).
Proof. intros Hm. by rewrite (bind_Return _ _ _ Hm). Qed.

Lemma outcome_bind_eq {A B} (f : A → M B) (m : M A) a :
  outcome m = Return a → outcome (m ≫= f) = outcome (f a).
Proof. intros Hm. by rewrite (bind_Return _ _ _ Hm). Qed.

Lemma M_eq {A} (m : M A) t r : trace m = t → outcome m = r → m = (t, r).
Proof. destruct m. unfold trace, outcome. simpl. by intros -> ->. Qed.

(** With the column present, [process_file] is the batch of its cells
    followed by the flattening, between two lines of report. *)
Lemma process_file_runs file_path text_column completion df texts :
  read_csv file_path = Return df →
  default "text" text_column ∈ columns df →
  column_tolist df (default "text" text_column) = Return texts →
  ∃ results,
    outcome (batch texts None completion) = Return results ∧
    file file_path text_column completion =
      ([EvReadCsv file_path;
        EvPrint ("Processing " +:+ pretty (length texts) +:+ " texts...")]
       ++ trace (batch texts None completion)
       ++ [EvPrint ("Processing completed in " +:+ elapsed +:+ " seconds")],
       outcome (flatten results)).
Proof.
  intros Hread Hcol Htexts.
  assert (0 < default 5 None)%Z as Hpos by done.
  pose proof (predict_batch_outcome endpoint_name json_dumps response
    invoke_endpoint read_decode_loads pool_fault texts None completion Hpos)
    as Hres.
  eexists. split; [exact Hres|]. unfold process_file.
  assert (outcome (emit (EvReadCsv file_path);; eval (read_csv file_path))
          = Return df) as Hdf.
  { unfold mbind, M_bind, emit, eval, outcome; simpl. by rewrite Hread. }
  assert (trace (emit (EvReadCsv file_path);; eval (read_csv file_path))
          = [EvReadCsv file_path]) as Hdft.
  { reflexivity. }
  assert (outcome (eval (column_tolist df (default "text" text_column)))
          = Return texts) as Hcells by (by rewrite Htexts).
  apply M_eq.
  - rewrite (trace_bind_Return _ _ _ Hdf), Hdft. cbv beta.
    rewrite decide_False by (by intros ?).
    rewrite (trace_bind_Return _ _ _ Hcells), Htexts. cbv beta.
    erewrite (trace_bind_Return _ (print _)) by reflexivity. cbv beta.
    rewrite (trace_bind_Return _ _ _ Hres). cbv beta.
    erewrite (trace_bind_Return _ (print _)) by reflexivity. cbv beta.
    rewrite trace_bind_nil; [|apply flatten_trace|done].
    unfold print, emit, eval, trace; simpl. by rewrite ?app_nil_r.
  - rewrite (outcome_bind_eq _ _ _ Hdf). cbv beta.
    rewrite decide_False by (by intros ?).
    rewrite (outcome_bind_eq _ _ _ Hcells). cbv beta.
    erewrite (outcome_bind_eq _ (print _)) by reflexivity. cbv beta.
    rewrite (outcome_bind_eq _ _ _ Hres). cbv beta.
    erewrite (outcome_bind_eq _ (print _)) by reflexivity. cbv beta.
    destruct (flatten _) as [tf [rows|e]]; reflexivity.
Qed.

(** X8: when reading the file raises, [process_file] raises the same
    error, having printed nothing and sent no request. *)
Theorem process_file_read_error file_path text_column completion e :
  read_csv file_path = Raise e →
  process_file endpoint_name json_dumps response invoke_endpoint
    read_decode_loads pool_fault read_csv elapsed file_path text_column
    completion = ([EvReadCsv file_path], Raise e).
Proof.
  intros Hread. unfold process_file.
  erewrite bind_Raise.
  2:{ unfold mbind, M_bind, emit, eval, outcome; simpl. exact Hread. }
  reflexivity.
Qed.


(** What a returned table is made of. *)
Lemma process_file_table file_path text_column completion rows :
  outcome (file file_path text_column completion) = Return rows →
  ∃ df texts results groups,
    read_csv file_path = Return df ∧
    column_tolist df (default "text" text_column) = Return texts ∧
    outcome (batch texts None completion) = Return results ∧
    rows = concat groups ∧
    Forall2 (λ result group,
      ∃ items, iter (entities result) = Return items ∧
        Forall2 (λ entity row,
          outcome (entity_row result entity) = Return row) items group)
      results groups.
Proof.
  intros (df & texts & results & ? & _ & ? & ? & Hrows)%process_file_inv.
  apply for_extend_inv in Hrows as (groups & -> & Hgroups).
  exists df, texts, results, groups. repeat (split; [done|]).
  eapply Forall2_impl; [exact Hgroups|].
  by intros result group ?%flatten_group.
Qed.

Lemma group_carries result items group :
  Forall2 (λ entity row, outcome (entity_row result entity) = Return row)
    items group →
  Forall (λ row, original_index row = index result ∧
                 original_text row = text result) group.
Proof.
  intros Hrows. eapply Forall2_Forall_r; [exact Hrows|].
  apply Forall_forall. intros entity _ row Hrow.
  by destruct (entity_row_carries _ _ _ Hrow) as (? & ? & _).
Qed.

Lemma constant_sorted {A} (f : A → nat) n (l : list A) :
  Forall (λ x, f x = n) l → StronglySorted le (f <$> l).
Proof.
  induction 1 as [|x l Hx Hl IH]; [constructor|]. cbn. constructor; [done|].
  apply Forall_fmap. eapply Forall_impl; [exact Hl|]. intros y Hy.
  unfold compose. by rewrite Hx, Hy.
Qed.

Lemma grouped_by_index results (groups : list (list Row)) :
  StronglySorted index_le results →
  Forall2 (λ result group,
    Forall (λ row, original_index row = index result) group) results groups →
  StronglySorted le (original_index <$> concat groups).
Proof.
  intros Hsorted Hgroups. revert Hsorted.
  induction Hgroups as [|result group results groups Hgroup Hrest IH];
    intros Hsorted; [constructor|].
  apply StronglySorted_inv in Hsorted as [Hsorted Hle].
  rewrite concat_cons, fmap_app. apply StronglySorted_app_2; [| |by apply IH].
  - intros x1 x2 (row1 & -> & Hrow1)%list_elem_of_fmap
      (row2 & -> & Hrow2)%list_elem_of_fmap.
    rewrite (proj1 (Forall_forall _ _) Hgroup row1 Hrow1).
    apply list_elem_of_In, in_concat in Hrow2 as (group2 & Hin & Hrow2).
    apply list_elem_of_In, list_elem_of_lookup in Hin as [k Hk].
    destruct (Forall2_lookup_r _ _ _ _ _ Hrest Hk) as (result2 & Hk2 & Hgroup2).
    rewrite (proj1 (Forall_forall _ _) Hgroup2 row2)
      by by apply list_elem_of_In.
    apply (proj1 (Forall_forall _ _) Hle result2).
    by eapply list_elem_of_lookup_2.
  - by eapply constant_sorted.
Qed.

(** X9: the rows of the table [process_file] returns are in the order of
    the texts of the file: their [original_index] never decreases, whatever
    the order in which the requests complete. *)
Theorem process_file_rows_in_order file_path text_column completion rows :
  outcome (file file_path text_column completion) = Return rows →
  StronglySorted le (original_index <$> rows).
Proof.
  intros (df & texts & results & groups & _ & _ & Hres & -> & Hgroups)
    %process_file_table.
  apply (grouped_by_index results); [by eapply predict_batch_by_index|].
  eapply Forall2_impl; [exact Hgroups|].
  intros result group (items & _ & Hrows).
  eapply Forall_impl; [by eapply group_carries|]. by intros row [? _].
Qed.

(** X10: every row of the table carries the text found in the column at
    its [original_index]. *)
Theorem process_file_rows_carry_cells file_path text_column completion rows :
  outcome (file file_path text_column completion) = Return rows →
  ∃ df texts,
    read_csv file_path = Return df ∧
    column_tolist df (default "text" text_column) = Return texts ∧
    Forall (λ row, texts !! original_index row = Some (original_text row)) rows.
Proof.
  intros (df & texts & results & groups & Hread & Htexts & Hres & -> & Hgroups)
    %process_file_table.
  exists df, texts. split; [done|]. split; [done|].
  apply predict_batch_members in Hres. apply Forall_concat.
  induction Hgroups as [|result group results groups (items & _ & Hrows) _ IH];
    [constructor|].
  apply Forall_cons in Hres as [(i & t & Ht & ->) Hres].
  constructor; [|by apply IH].
  eapply Forall_impl; [by eapply group_carries|]. intros row [-> ->].
  unfold batch_result. by rewrite collected_index, collected_text.
Qed.

Lemma concat_length_counts results (groups : list (list Row)) :
  Forall2 (λ result group, species_count result = length group)
    results groups →
  length (concat groups) = total_species results.
Proof.
  unfold total_species.
  induction 1 as [|result group results groups Hgroup _ IH]; [done|].
  rewrite concat_cons, length_app, fmap_cons. simpl. by rewrite IH, Hgroup.
Qed.

(** X11: the table has as many rows as the counts of the results of the
    batch add up to. *)
Theorem process_file_row_count file_path text_column completion rows :
  outcome (file file_path text_column completion) = Return rows →
  ∃ df texts results,
    read_csv file_path = Return df ∧
    column_tolist df (default "text" text_column) = Return texts ∧
    outcome (batch texts None completion) = Return results ∧
    length rows = total_species results.
Proof.
  intros (df & texts & results & groups & Hread & Htexts & Hres & -> & Hgroups)
    %process_file_table.
  exists df, texts, results. repeat (split; [done|]).
  apply concat_length_counts.
  pose proof (predict_batch_members _ _ _ _ Hres) as Hmem. clear Hres.
  induction Hgroups as [|result group results groups (items & Hiter & Hrows) _ IH];
    [constructor|].
  apply Forall_cons in Hmem as [(i & t & _ & ->) Hmem].
  constructor; [|by apply IH].
  apply iter_len in Hiter. rewrite result_of_counts in Hiter.
  injection Hiter as ->. by eapply Forall2_length.
Qed.


(** The loops raise as soon as an item they visit cannot give one of the
    four keys. *)
Lemma flatten_raises results result items entity key e :
  result ∈ results →
  iter (entities result) = Return items →
  entity ∈ items →
  key ∈ entity_keys →
  getitem entity key = Raise e →
  ∃ e', outcome (flatten results) = Raise e'.
Proof.
  intros Hresult Hitems Hentity Hkey Hget.
  destruct (outcome (flatten results)) as [rows|e'] eqn:Hflat; [|by exists e'].
  exfalso. apply for_extend_inv in Hflat as (groups & _ & Hgroups).
  apply list_elem_of_lookup in Hresult as [k Hk].
  destruct (Forall2_lookup_l _ _ _ _ _ Hgroups Hk) as (group & _ & Hgroup).
  apply flatten_group in Hgroup as (items' & Hiter & Hrows).
  rewrite Hitems in Hiter. injection Hiter as <-.
  apply list_elem_of_lookup in Hentity as [j Hj].
  destruct (Forall2_lookup_l _ _ _ _ _ Hrows Hj) as (row & _ & Hrow).
  apply entity_row_inv in Hrow as (w & sc & st & en & Hw & Hsc & Hst & Hen & _).
  unfold entity_keys in Hkey.
  repeat (apply elem_of_cons in Hkey as [->|Hkey]; [congruence|]).
  by apply elem_of_nil in Hkey.
Qed.

(** X12: an entity without one of the four keys read makes the loops of
    [process_file] raise: no table missing a row or a cell is returned. *)
Theorem flatten_rejects_incomplete_entity results result l entity key e :
  result ∈ results →
  entities result = JArr l →
  entity ∈ l →
  key ∈ entity_keys →
  getitem entity key = Raise e →
  ∃ e', outcome (flatten results) = Raise e'.
Proof.
  intros Hresult Hl. apply (flatten_raises results result l); [done|].
  by rewrite Hl.
Qed.

(** X17: a result whose entities are a JSON object with at least one key
    (the answer of an endpoint that reports an error as an object, which
    [predict_batch] counts as a success) makes the loops of [process_file]
    raise: they visit the keys, and a key is a string, which has no
    ['word']. *)
Theorem flatten_rejects_object_answer results result (m : gmap string json) :
  result ∈ results →
  entities result = JObj m →
  m ≠ ∅ →
  ∃ e', outcome (flatten results) = Raise e'.
Proof.
  intros Hresult Hm Hne.
  destruct (map_to_list m) as [|[k v] kvs] eqn:Hkvs;
    [by apply map_to_list_empty_iff in Hkvs|].
  apply (flatten_raises results result
           ((λ kv, JStr kv.1) <$> map_to_list m) (JStr k) "word"
           (TypeError "string indices must be integers, not 'str'"));
    [done | by rewrite Hm | | repeat constructor | done].
  rewrite Hkvs. apply list_elem_of_here.
Qed.

Lemma flatten_no_entities results :
  Forall (λ result, entities result = JArr []) results →
  outcome (flatten results) = Return [].
Proof.
  intros Hnone. apply for_extend_inv. exists ((λ _, []) <$> results). split.
  - clear Hnone. induction results as [|r results IH]; [done|].
    by rewrite fmap_cons, concat_cons, <- IH.
  - apply Forall2_fmap_r, Forall_Forall2_diag.
    eapply Forall_impl; [exact Hnone|]. intros result Hresult. simpl.
    apply flatten_group. exists []. rewrite Hresult. split; [done|constructor].
Qed.

(** X13: when every request fails, [process_file] does not fail: it
    returns the empty table. *)
Theorem process_file_all_requests_fail file_path text_column completion df :
  read_csv file_path = Return df →
  default "text" text_column ∈ columns df →
  (∀ call text, ∃ e,
     request_fails endpoint_name json_dumps response invoke_endpoint
       read_decode_loads call text e) →
  (∀ i, pool_fault i = None) →
  outcome (file file_path text_column completion) = Return [].
Proof.
  intros Hread Hcol Hfail Hpool.
  destruct (column_tolist_present df _ Hcol) as [texts Htexts].
  destruct (process_file_runs file_path text_column completion df texts
              Hread Hcol Htexts) as (results & Hres & ->).
  cbn [outcome snd]. apply flatten_no_entities.
  eapply Forall_impl; [by eapply predict_batch_members|].
  intros r (i & t & _ & ->). by rewrite batch_result_swallowed.
Qed.

(** X14: [process_file] sends one request for every cell of the column
    that can be serialized, and no other. *)
Theorem process_file_one_request_per_cell file_path text_column completion
    df texts :
  read_csv file_path = Return df →
  default "text" text_column ∈ columns df →
  column_tolist df (default "text" text_column) = Return texts →
  completion ≡ₚ seq 0 (length texts) →
  (∀ i, pool_fault i = None) →
  requests (trace (file file_path text_column completion)) ≡ₚ
    omap (λ text,
      match json_dumps text with
      | Return payload => Some (endpoint_name, "application/json", payload)
      | Raise _ => None
      end) texts.
Proof.
  intros Hread Hcol Htexts Hperm Hpool.
  destruct (process_file_runs file_path text_column completion df texts
              Hread Hcol Htexts) as (results & _ & ->).
  cbn [trace fst]. rewrite !requests_app.
  change (requests [EvReadCsv _; EvPrint _]) with (@nil (string * string * string)).
  change (requests [EvPrint _]) with (@nil (string * string * string)).
  rewrite app_nil_l, app_nil_r. by apply predict_batch_requests.
Qed.

(** *** The summary of [main] *)

Lemma successful_predictions_all results :
  Forall (λ r, status r = "success") results →
  successful_predictions results = length results.
Proof.
  unfold successful_predictions.
  induction 1 as [|r results Hr _ IH]; [done|].
  rewrite filter_cons_True by done. simpl. by rewrite IH.
Qed.

(** X15: when every request fails, the summary still counts every text as
    a successful prediction, with no species detected at all. *)
Theorem summary_counts_failures_as_successes texts max_workers completion :
  (∀ call text, ∃ e,
     request_fails endpoint_name json_dumps response invoke_endpoint
       read_decode_loads call text e) →
  (∀ i, pool_fault i = None) →
  (0 < default 5 max_workers)%Z →
  completion ≡ₚ seq 0 (length texts) →
  ∃ results,
    outcome (batch texts max_workers completion) = Return results ∧
    successful_predictions results = length texts ∧
    total_species results = 0.
Proof.
  intros Hfail Hpool Hpos Hperm. exists (imap result_of texts).
  split; [by apply predict_batch_sorted|].
  assert (Forall (λ r, status r = "success" ∧ species_count r = 0)
            (imap result_of texts)) as Hall.
  { apply Forall_forall. intros r (i & t & -> & _)%elem_of_lookup_imap.
    by rewrite batch_result_swallowed. }
  split.
  - rewrite successful_predictions_all, length_imap; [done|].
    eapply Forall_impl; [exact Hall|]. by intros r [? _].
  - unfold total_species. rewrite (sum_list_fmap_same 0); [lia|].
    eapply Forall_impl; [exact Hall|]. by intros r [_ ?].
Qed.

Lemma summary_group result group :
  outcome (items ← eval (iter (entities result));
           for_append (summary_item result) items) = Return group →
  ∃ items, iter (entities result) = Return items ∧ length items = length group.
Proof.
  intros (items & Hiter & Hitems)%outcome_bind_Return.
  unfold eval, outcome in Hiter; simpl in Hiter.
  exists items. split; [done|]. apply for_append_inv in Hitems.
  by eapply Forall2_length.
Qed.

(** X16: the list of species [main] builds from the results of a batch has
    as many items as the total of species it prints. *)
Theorem all_entities_count texts max_workers completion results items :
  outcome (batch texts max_workers completion) = Return results →
  outcome (all_entities results) = Return items →
  length items = total_species results.
Proof.
  intros Hres%predict_batch_members (groups & -> & Hgroups)%for_extend_inv.
  unfold total_species.
  induction Hgroups as [|result group results groups Hgroup _ IH]; [done|].
  apply Forall_cons in Hres as [(i & t & _ & ->) Hres].
  apply summary_group in Hgroup as (its & Hiter%iter_len & Hlen).
  rewrite result_of_counts in Hiter. injection Hiter as Hcount.
  rewrite concat_cons, length_app, fmap_cons. simpl.
  rewrite IH by done. lia.
Qed.


End Behaviour.


(** ** The properties on examples *)
Section Examples.

#[local] Abbreviation single runtime :=
  (predict_single "openmed-ner-species-detection-endpoint" dumps_ok string
     runtime loads_ecoli).
#[local] Abbreviation batch runtime fault :=
  (predict_batch "openmed-ner-species-detection-endpoint" dumps_ok string
     runtime loads_ecoli fault).
#[local] Abbreviation file runtime fault :=
  (process_file "openmed-ner-species-detection-endpoint" dumps_ok string
     runtime loads_ecoli fault read_csv_xy "0.42").

(** Three texts on one worker, completed out of order. *)
Example batch_abc_indices :
  ∃ results,
    outcome (batch runtime_up no_fault ["a"; "b"; "c"] (Some 1%Z) [2; 0; 1])
      = Return results ∧
    index <$> results = [0; 1; 2] ∧ text <$> results = ["a"; "b"; "c"].
Proof. eexists. split; [reflexivity|]. split; reflexivity. Qed.

(** One species for ["x"] and none for ["y"]: the counts are 1 and 0 and
    the table has one row, for ["x"]. *)
Example batch_xy_counts :
  ∃ results,
    outcome (batch runtime_up no_fault ["x"; "y"] None [1; 0]) = Return results ∧
    species_count <$> results = [1; 0] ∧
    outcome (flatten results) =
      Return [ {| original_index := 0; original_text := "x";
                  species := JStr "E. coli";
                  confidence := JFloat (S754_finite false 8556839292003942 (-53));
                  start_position := JInt 0; end_position := JInt 7;
                  row_status := "success" |} ].
Proof. eexists. split; [reflexivity|]. split; reflexivity. Qed.

Example file_xy_table :
  file runtime_up no_fault "texts.csv" None [1; 0] =
    ([EvReadCsv "texts.csv"; EvPrint "Processing 2 texts...";
      EvInvoke "openmed-ner-species-detection-endpoint" "application/json" "y";
      EvInvoke "openmed-ner-species-detection-endpoint" "application/json" "x";
      EvPrint "Processing completed in 0.42 seconds"],
     Return [ {| original_index := 0; original_text := "x";
                 species := JStr "E. coli";
                 confidence := JFloat (S754_finite false 8556839292003942 (-53));
                 start_position := JInt 0; end_position := JInt 7;
                 row_status := "success" |} ]).
Proof. reflexivity. Qed.

(** An answer that is no list makes [len] raise inside [predict_batch]:
    the result is an error. *)
Example batch_not_a_list :
  outcome (batch runtime_up no_fault ["zz"] None [0]) =
    Return [ {| index := 0; text := "zz"; entities := JArr [];
                species_count := 0;
                status := "error: object of type 'int' has no len()" |} ].
Proof. reflexivity. Qed.

(** A bound that is not positive is refused. *)
Example batch_no_worker :
  batch runtime_up no_fault ["x"] (Some 0%Z) [0] =
    ([], Raise (ValueError "max_workers must be greater than 0")).
Proof. reflexivity. Qed.

(** An entity without the key ['word'] stops [process_file]. *)
Example flatten_missing_key :
  outcome (flatten [ {| index := 0; text := "x";
                        entities := JArr [JObj ∅]; species_count := 1;
                        status := "success" |} ]) =
    Raise (KeyError "word").
Proof. reflexivity. Qed.

(** *** The theorems at concrete inputs *)

Lemma predict_single_swallows_errors_witness :
  request_fails "openmed-ner-species-detection-endpoint" dumps_ok string
    runtime_down loads_ecoli 0 "x" connection_error ∧
  outcome (single runtime_down 0 "x") = Return (JArr []) ∧
  last (trace (single runtime_down 0 "x")) =
    Some (EvPrint ("Error processing text: " +:+ str connection_error)).
Proof.
  assert (request_fails "openmed-ner-species-detection-endpoint" dumps_ok
            string runtime_down loads_ecoli 0 "x" connection_error) as Hfail.
  { eapply fails_invoke; reflexivity. }
  split; [exact Hfail|].
  exact (proj1 (predict_single_swallows_errors
                  "openmed-ner-species-detection-endpoint" dumps_ok string
                  runtime_down loads_ecoli 0 "x") connection_error Hfail).
Defined.


Lemma out_of_order : [2; 0; 1] ≡ₚ seq 0 3.
Proof.
  apply (perm_trans (l' := [0; 2; 1])); [apply perm_swap|].
  apply perm_skip, perm_swap.
Defined.

Lemma predict_batch_preserves_order_witness :
  (0 < default 5 (Some 1))%Z ∧
  [2; 0; 1] ≡ₚ seq 0 (length ["a"; "b"; "c"]) ∧
  ∃ results,
    outcome (batch runtime_first no_fault ["a"; "b"; "c"] (Some 1%Z) [2; 0; 1])
      = Return results ∧
    length results = length ["a"; "b"; "c"] ∧
    ∀ i, i < length ["a"; "b"; "c"] →
      ∃ r, results !! i = Some r ∧ index r = i ∧
           ["a"; "b"; "c"] !! i = Some (text r).
Proof.
  split; [reflexivity|]. split; [exact out_of_order|].
  apply (predict_batch_preserves_order
           "openmed-ner-species-detection-endpoint" dumps_ok string
           runtime_first loads_ecoli no_fault ["a"; "b"; "c"] (Some 1%Z)
           [2; 0; 1]); [reflexivity | exact out_of_order].
Defined.

Lemma runtime_down_fails call text :
  ∃ e, request_fails "openmed-ner-species-detection-endpoint" dumps_ok
         string runtime_down loads_ecoli call text e.
Proof. exists connection_error. eapply fails_invoke; reflexivity. Defined.

Lemma failing_predictor_yields_success_witness :
  (∀ call text, ∃ e,
     request_fails "openmed-ner-species-detection-endpoint" dumps_ok string
       runtime_down loads_ecoli call text e) ∧
  (∀ i, no_fault i = None) ∧
  (0 < default 5 None)%Z ∧
  [2; 0; 1] ≡ₚ seq 0 (length ["x"; "y"; "xxx"]) ∧
  ∃ results,
    outcome (batch runtime_down no_fault ["x"; "y"; "xxx"] None [2; 0; 1])
      = Return results ∧
    length results = length ["x"; "y"; "xxx"] ∧
    Forall (λ r, status r = "success" ∧ entities r = JArr [] ∧
                 species_count r = 0) results.
Proof.
  split; [exact runtime_down_fails|]. split; [reflexivity|].
  split; [reflexivity|]. split; [exact out_of_order|].
  apply (failing_predictor_yields_success
           "openmed-ner-species-detection-endpoint" dumps_ok string
           runtime_down loads_ecoli no_fault ["x"; "y"; "xxx"] None [2; 0; 1]);
    [exact runtime_down_fails | reflexivity | reflexivity | exact out_of_order].
Defined.

Lemma worker_fault_is_isolated_witness :
  (0 < default 5 (Some 2))%Z ∧
  [2; 0; 1] ≡ₚ seq 0 (length ["x"; "y"; "xxx"]) ∧
  ["x"; "y"; "xxx"] !! 1 = Some "y" ∧
  ∃ faulty clean,
    outcome (batch runtime_up (fault_at 1 cancelled) ["x"; "y"; "xxx"]
               (Some 2%Z) [2; 0; 1]) = Return faulty ∧
    outcome (batch runtime_up no_fault ["x"; "y"; "xxx"] (Some 2%Z) [2; 0; 1])
      = Return clean ∧
    faulty !! 1 =
      Some {| index := 1; text := "y"; entities := JArr [];
              species_count := 0; status := "error: " +:+ str cancelled |} ∧
    ∀ i, i ≠ 1 → faulty !! i = clean !! i.
Proof.
  split; [reflexivity|]. split; [exact out_of_order|]. split; [reflexivity|].
  apply (worker_fault_is_isolated
           "openmed-ner-species-detection-endpoint" dumps_ok string
           runtime_up loads_ecoli 1 cancelled "y" ["x"; "y"; "xxx"]
           (Some 2%Z) [2; 0; 1]);
    [reflexivity | exact out_of_order | reflexivity].
Defined.

Lemma species_count_is_len_witness :
  ∃ results,
    outcome (batch runtime_up (fault_at 1 cancelled) ["x"; "y"; "zz"] None
               [2; 0; 1]) = Return results ∧
    Forall (λ r,
      len (entities r) = Return (species_count r) ∧
      (String.prefix "error:" (status r) = true →
       entities r = JArr [] ∧ species_count r = 0)) results.
Proof.
  eexists. split; [reflexivity|].
  apply (species_count_is_len
           "openmed-ner-species-detection-endpoint" dumps_ok string
           runtime_up loads_ecoli (fault_at 1 cancelled) ["x"; "y"; "zz"]
           None [2; 0; 1]).
  reflexivity.
Defined.

Lemma predict_batch_empty_witness :
  (0 < default 5 None)%Z ∧
  batch runtime_up no_fault [] None [] = ([], Return []).
Proof.
  split; [reflexivity|].
  apply (predict_batch_empty
           "openmed-ner-species-detection-endpoint" dumps_ok string
           runtime_up loads_ecoli no_fault None []).
  reflexivity.
Defined.

Lemma no_body_column :
  default "text" (Some "body")
    ∉ columns [("id", ["1"; "2"]); ("text", ["x"; "y"])].
Proof.
  intros H. unfold columns in H. simpl in H.
  apply elem_of_cons in H as [H|H]; [discriminate|].
  apply elem_of_cons in H as [H|H]; [discriminate|].
  by apply elem_of_nil in H.
Defined.

Lemma process_file_missing_column_witness :
  read_csv_xy "texts.csv" = Return [("id", ["1"; "2"]); ("text", ["x"; "y"])] ∧
  (default "text" (Some "body")
     ∉ columns [("id", ["1"; "2"]); ("text", ["x"; "y"])]) ∧
  file runtime_up no_fault "texts.csv" (Some "body") [1; 0] =
    ([EvReadCsv "texts.csv"],
     Raise (ValueError "Column 'body' not found in file")).
Proof.
  split; [reflexivity|]. split; [exact no_body_column|].
  apply (process_file_missing_column
           "openmed-ner-species-detection-endpoint" dumps_ok string
           runtime_up loads_ecoli no_fault read_csv_xy "0.42" "texts.csv"
           (Some "body") [1; 0] [("id", ["1"; "2"]); ("text", ["x"; "y"])]);
    [reflexivity | exact no_body_column].
Defined.

Lemma flatten_one_row_per_entity_witness :
  ∃ rows groups,
    outcome (flatten [three_species; no_species]) = Return rows ∧
    rows = concat groups ∧ length rows = 3 ∧
    Forall2 (λ result group,
      (∃ items, iter (entities result) = Return items ∧
         Forall2 (λ entity row,
           outcome (entity_row result entity) = Return row) items group) ∧
      len (entities result) = Return (length group) ∧
      Forall (λ row, original_index row = index result ∧
                     original_text row = text result) group)
      [three_species; no_species] groups.
Proof.
  destruct (proj1 (flatten_one_row_per_entity [three_species; no_species])
              _ eq_refl) as (groups & Hrows & Hgroups).
  eexists _, groups. split; [reflexivity|]. split; [exact Hrows|].
  split; [reflexivity | exact Hgroups].
Defined.

Lemma process_file_rows_are_success_witness :
  ∃ rows,
    outcome (file runtime_first (fault_at 1 cancelled) "texts.csv" None [1; 0])
      = Return rows ∧
    Forall (λ row, row_status row = "success") rows.
Proof.
  eexists. split; [reflexivity|].
  apply (process_file_rows_are_success
           "openmed-ner-species-detection-endpoint" dumps_ok string
           runtime_first loads_ecoli (fault_at 1 cancelled) read_csv_xy
           "0.42" "texts.csv" None [1; 0]).
  reflexivity.
Defined.


End Examples.

(** ** The further properties on examples *)
Section BehaviourExamples.

#[local] Abbreviation name := "openmed-ner-species-detection-endpoint".
#[local] Abbreviation single dumps runtime :=
  (predict_single name dumps string runtime loads_ecoli).
#[local] Abbreviation batch dumps runtime fault :=
  (predict_batch name dumps string runtime loads_ecoli fault).
#[local] Abbreviation file dumps runtime fault read :=
  (process_file name dumps string runtime loads_ecoli fault read "0.42").

Lemma predict_single_returns_answer_witness :
  dumps_ok "x" = Return "x" ∧
  runtime_up 3 name "application/json" "x" = Return "x" ∧
  loads_ecoli "x" = Return (JArr [ecoli]) ∧
  single dumps_ok runtime_up 3 "x" =
    ([EvInvoke name "application/json" "x"], Return (JArr [ecoli])).
Proof.
  split; [reflexivity|]. split; [reflexivity|]. split; [reflexivity|].
  apply (predict_single_returns_answer name dumps_ok string runtime_up
           loads_ecoli 3 "x" "x" "x"); reflexivity.
Defined.

Lemma predict_single_unserializable_witness :
  dumps_fussy "bytes" =
    Raise (TypeError "Object of type bytes is not JSON serializable") ∧
  single dumps_fussy runtime_up 0 "bytes" =
    ([EvPrint ("Error processing text: " +:+
               str (TypeError "Object of type bytes is not JSON serializable"))],
     Return (JArr [])).
Proof.
  split; [reflexivity|].
  apply (predict_single_unserializable name dumps_fussy string runtime_up
           loads_ecoli 0 "bytes"). reflexivity.
Defined.

Lemma predict_batch_rejects_bound_witness :
  (default 5 (Some (-1)) ≤ 0)%Z ∧
  batch dumps_ok runtime_up no_fault ["x"; "y"] (Some (-1)%Z) [1; 0] =
    ([], Raise (ValueError "max_workers must be greater than 0")).
Proof.
  split; [by intros ?|].
  apply (predict_batch_rejects_bound name dumps_ok string runtime_up
           loads_ecoli no_fault ["x"; "y"] (Some (-1)%Z) [1; 0]).
  by intros ?.
Defined.

Lemma in_order : [0; 1; 2] ≡ₚ seq 0 3.
Proof. apply Permutation_refl. Defined.

Lemma predict_batch_order_irrelevant_witness :
  [2; 0; 1] ≡ₚ seq 0 (length ["x"; "zz"; "xxx"]) ∧
  [0; 1; 2] ≡ₚ seq 0 (length ["x"; "zz"; "xxx"]) ∧
  outcome (batch dumps_ok runtime_first (fault_at 2 cancelled)
             ["x"; "zz"; "xxx"] None [2; 0; 1]) =
  outcome (batch dumps_ok runtime_first (fault_at 2 cancelled)
             ["x"; "zz"; "xxx"] None [0; 1; 2]).
Proof.
  split; [exact out_of_order|]. split; [exact in_order|].
  apply (predict_batch_order_irrelevant name dumps_ok string runtime_first
           loads_ecoli (fault_at 2 cancelled) ["x"; "zz"; "xxx"] None
           [2; 0; 1] [0; 1; 2]); [exact out_of_order | exact in_order].
Defined.

Lemma answer_without_len_is_error_witness :
  (0 < default 5 None)%Z ∧
  [2; 0; 1] ≡ₚ seq 0 (length ["x"; "zz"; "xxx"]) ∧
  ["x"; "zz"; "xxx"] !! 1 = Some "zz" ∧
  no_fault 1 = None ∧
  outcome (single dumps_ok runtime_up 1 "zz") = Return (JInt 42) ∧
  len (JInt 42) = Raise (TypeError "object of type 'int' has no len()") ∧
  ∃ results,
    outcome (batch dumps_ok runtime_up no_fault ["x"; "zz"; "xxx"] None
               [2; 0; 1]) = Return results ∧
    results !! 1 =
      Some {| index := 1; text := "zz"; entities := JArr [];
              species_count := 0;
              status := "error: " +:+
                str (TypeError "object of type 'int' has no len()") |}.
Proof.
  split; [reflexivity|]. split; [exact out_of_order|].
  do 4 (split; [reflexivity|]).
  apply (answer_without_len_is_error name dumps_ok string runtime_up
           loads_ecoli no_fault ["x"; "zz"; "xxx"] None [2; 0; 1] 1 "zz"
           (JInt 42) (TypeError "object of type 'int' has no len()"));
    [reflexivity | exact out_of_order | reflexivity..].
Defined.

Lemma answer_with_len_is_success_witness :
  (0 < default 5 None)%Z ∧
  [2; 0; 1] ≡ₚ seq 0 (length ["x"; "zz"; "xxx"]) ∧
  ["x"; "zz"; "xxx"] !! 2 = Some "xxx" ∧
  no_fault 2 = None ∧
  outcome (single dumps_ok runtime_up 2 "xxx") =
    Return (JArr [ecoli; ecoli; ecoli]) ∧
  len (JArr [ecoli; ecoli; ecoli]) = Return 3 ∧
  ∃ results,
    outcome (batch dumps_ok runtime_up no_fault ["x"; "zz"; "xxx"] None
               [2; 0; 1]) = Return results ∧
    results !! 2 =
      Some {| index := 2; text := "xxx";
              entities := JArr [ecoli; ecoli; ecoli]; species_count := 3;
              status := "success" |}.
Proof.
  split; [reflexivity|]. split; [exact out_of_order|].
  do 4 (split; [reflexivity|]).
  apply (answer_with_len_is_success name dumps_ok string runtime_up
           loads_ecoli no_fault ["x"; "zz"; "xxx"] None [2; 0; 1] 2 "xxx"
           (JArr [ecoli; ecoli; ecoli]) 3);
    [reflexivity | exact out_of_order | reflexivity..].
Defined.

Lemma one_request_per_text_witness :
  (0 < default 5 (Some 2))%Z ∧
  [2; 0; 1] ≡ₚ seq 0 (length ["x"; "bytes"; "y"]) ∧
  (∀ i, no_fault i = None) ∧
  requests (trace (batch dumps_fussy runtime_first no_fault
                     ["x"; "bytes"; "y"] (Some 2%Z) [2; 0; 1])) ≡ₚ
    omap (λ text,
      match dumps_fussy text with
      | Return payload => Some (name, "application/json", payload)
      | Raise _ => None
      end) ["x"; "bytes"; "y"].
Proof.
  split; [reflexivity|]. split; [exact out_of_order|]. split; [reflexivity|].
  apply (one_request_per_text name dumps_fussy string runtime_first
           loads_ecoli no_fault ["x"; "bytes"; "y"] (Some 2%Z) [2; 0; 1]);
    [reflexivity | exact out_of_order | reflexivity].
Defined.

Lemma process_file_read_error_witness :
  read_csv_missing "none.csv" =
    Raise (Exn "FileNotFoundError" "No such file or directory") ∧
  file dumps_ok runtime_up no_fault read_csv_missing "none.csv" None [] =
    ([EvReadCsv "none.csv"],
     Raise (Exn "FileNotFoundError" "No such file or directory")).
Proof.
  split; [reflexivity|].
  apply (process_file_read_error name dumps_ok string runtime_up loads_ecoli
           no_fault read_csv_missing "0.42" "none.csv" None []).
  reflexivity.
Defined.

Lemma process_file_rows_in_order_witness :
  ∃ rows,
    outcome (file dumps_ok runtime_up no_fault read_csv_xy "texts.csv"
               (Some "text") [1; 0]) = Return rows ∧
    StronglySorted le (original_index <$> rows).
Proof.
  eexists. split; [reflexivity|].
  apply (process_file_rows_in_order name dumps_ok string runtime_up
           loads_ecoli no_fault read_csv_xy "0.42" "texts.csv" (Some "text")
           [1; 0]).
  reflexivity.
Defined.

Lemma process_file_rows_carry_cells_witness :
  ∃ rows,
    outcome (file dumps_ok runtime_up no_fault read_csv_xy "texts.csv"
               None [1; 0]) = Return rows ∧
    ∃ df texts,
      read_csv_xy "texts.csv" = Return df ∧
      column_tolist df (default "text" None) = Return texts ∧
      Forall (λ row, texts !! original_index row = Some (original_text row))
        rows.
Proof.
  eexists. split; [reflexivity|].
  apply (process_file_rows_carry_cells name dumps_ok string runtime_up
           loads_ecoli no_fault read_csv_xy "0.42" "texts.csv" None [1; 0]).
  reflexivity.
Defined.

Lemma process_file_row_count_witness :
  ∃ rows,
    outcome (file dumps_ok runtime_up no_fault read_csv_xy "texts.csv"
               None [1; 0]) = Return rows ∧
    ∃ df texts results,
      read_csv_xy "texts.csv" = Return df ∧
      column_tolist df (default "text" None) = Return texts ∧
      outcome (batch dumps_ok runtime_up no_fault texts None [1; 0])
        = Return results ∧
      length rows = total_species results.
Proof.
  eexists. split; [reflexivity|].
  apply (process_file_row_count name dumps_ok string runtime_up
           loads_ecoli no_fault read_csv_xy "0.42" "texts.csv" None [1; 0]).
  reflexivity.
Defined.

Lemma nameless_in_results :
  nameless_species ∈ [three_species; no_species; nameless_species].
Proof. do 2 apply list_elem_of_further. apply list_elem_of_here. Defined.

Lemma flatten_rejects_incomplete_entity_witness :
  nameless_species ∈ [three_species; no_species; nameless_species] ∧
  entities nameless_species = JArr [ecoli; JObj (<["score" := JInt 1]> ∅)] ∧
  JObj (<["score" := JInt 1]> ∅) ∈ [ecoli; JObj (<["score" := JInt 1]> ∅)] ∧
  "word" ∈ entity_keys ∧
  getitem (JObj (<["score" := JInt 1]> ∅)) "word" = Raise (KeyError "word") ∧
  ∃ e', outcome (flatten [three_species; no_species; nameless_species])
        = Raise e'.
Proof.
  split; [exact nameless_in_results|]. split; [reflexivity|].
  split; [apply list_elem_of_further, list_elem_of_here|].
  split; [apply list_elem_of_here|]. split; [reflexivity|].
  apply (flatten_rejects_incomplete_entity
           [three_species; no_species; nameless_species] nameless_species
           [ecoli; JObj (<["score" := JInt 1]> ∅)]
           (JObj (<["score" := JInt 1]> ∅)) "word" (KeyError "word"));
    [exact nameless_in_results | reflexivity
    | apply list_elem_of_further, list_elem_of_here
    | apply list_elem_of_here | reflexivity].
Defined.

Lemma text_column_present :
  default "text" None ∈ columns [("id", ["1"; "2"]); ("text", ["x"; "y"])].
Proof. apply list_elem_of_further, list_elem_of_here. Defined.

Lemma process_file_all_requests_fail_witness :
  read_csv_xy "texts.csv" = Return [("id", ["1"; "2"]); ("text", ["x"; "y"])] ∧
  (default "text" None ∈ columns [("id", ["1"; "2"]); ("text", ["x"; "y"])]) ∧
  (∀ call text, ∃ e,
     request_fails name dumps_ok string runtime_down loads_ecoli call text e) ∧
  (∀ i, no_fault i = None) ∧
  outcome (file dumps_ok runtime_down no_fault read_csv_xy "texts.csv"
             None [1; 0]) = Return [].
Proof.
  split; [reflexivity|]. split; [exact text_column_present|].
  split; [exact runtime_down_fails|]. split; [reflexivity|].
  apply (process_file_all_requests_fail name dumps_ok string runtime_down
           loads_ecoli no_fault read_csv_xy "0.42" "texts.csv" None [1; 0]
           [("id", ["1"; "2"]); ("text", ["x"; "y"])]);
    [reflexivity | exact text_column_present | exact runtime_down_fails
    | reflexivity].
Defined.

Lemma swapped : [1; 0] ≡ₚ seq 0 2.
Proof. apply perm_swap. Defined.

Lemma process_file_one_request_per_cell_witness :
  read_csv_xy "texts.csv" = Return [("id", ["1"; "2"]); ("text", ["x"; "y"])] ∧
  (default "text" None ∈ columns [("id", ["1"; "2"]); ("text", ["x"; "y"])]) ∧
  column_tolist [("id", ["1"; "2"]); ("text", ["x"; "y"])] (default "text" None)
    = Return ["x"; "y"] ∧
  [1; 0] ≡ₚ seq 0 (length ["x"; "y"]) ∧
  (∀ i, no_fault i = None) ∧
  requests (trace (file dumps_ok runtime_first no_fault read_csv_xy
                     "texts.csv" None [1; 0])) ≡ₚ
    omap (λ text,
      match dumps_ok text with
      | Return payload => Some (name, "application/json", payload)
      | Raise _ => None
      end) ["x"; "y"].
Proof.
  split; [reflexivity|]. split; [exact text_column_present|].
  split; [reflexivity|]. split; [exact swapped|]. split; [reflexivity|].
  apply (process_file_one_request_per_cell name dumps_ok string runtime_first
           loads_ecoli no_fault read_csv_xy "0.42" "texts.csv" None [1; 0]
           [("id", ["1"; "2"]); ("text", ["x"; "y"])] ["x"; "y"]);
    [reflexivity | exact text_column_present | reflexivity | exact swapped
    | reflexivity].
Defined.

Lemma summary_counts_failures_as_successes_witness :
  (∀ call text, ∃ e,
     request_fails name dumps_ok string runtime_down loads_ecoli call text e) ∧
  (∀ i, no_fault i = None) ∧
  (0 < default 5 None)%Z ∧
  [2; 0; 1] ≡ₚ seq 0 (length ["x"; "y"; "xxx"]) ∧
  ∃ results,
    outcome (batch dumps_ok runtime_down no_fault ["x"; "y"; "xxx"] None
               [2; 0; 1]) = Return results ∧
    successful_predictions results = length ["x"; "y"; "xxx"] ∧
    total_species results = 0.
Proof.
  split; [exact runtime_down_fails|]. split; [reflexivity|].
  split; [reflexivity|]. split; [exact out_of_order|].
  apply (summary_counts_failures_as_successes name dumps_ok string
           runtime_down loads_ecoli no_fault ["x"; "y"; "xxx"] None [2; 0; 1]);
    [exact runtime_down_fails | reflexivity | reflexivity | exact out_of_order].
Defined.

Lemma all_entities_count_witness :
  ∃ results items,
    outcome (batch dumps_ok runtime_up (fault_at 1 cancelled)
               ["x"; "y"; "xxx"] None [2; 0; 1]) = Return results ∧
    outcome (all_entities results) = Return items ∧
    length items = total_species results.
Proof.
  eexists _, _. split; [reflexivity|]. split; [reflexivity|].
  apply (all_entities_count name dumps_ok string runtime_up loads_ecoli
           (fault_at 1 cancelled) ["x"; "y"; "xxx"] None [2; 0; 1]);
    reflexivity.
Defined.

Lemma error_object_not_empty :
  <["error" := JStr "model not loaded"]> (∅ : gmap string json) ≠ ∅.
Proof. apply insert_non_empty. Defined.

Lemma flatten_rejects_object_answer_witness :
  object_answer ∈ [object_answer; no_species] ∧
  entities object_answer = JObj (<["error" := JStr "model not loaded"]> ∅) ∧
  <["error" := JStr "model not loaded"]> (∅ : gmap string json) ≠ ∅ ∧
  ∃ e', outcome (flatten [object_answer; no_species]) = Raise e'.
Proof.
  split; [apply list_elem_of_here|]. split; [reflexivity|].
  split; [exact error_object_not_empty|].
  apply (flatten_rejects_object_answer [object_answer; no_species]
           object_answer (<["error" := JStr "model not loaded"]> ∅));
    [apply list_elem_of_here | reflexivity | exact error_object_not_empty].
Defined.

(** An object as answer: a success for [predict_batch], an error for
    [process_file]. *)
Example flatten_object_answer :
  outcome (flatten [object_answer; no_species]) =
    Raise (TypeError "string indices must be integers, not 'str'").
Proof. reflexivity. Qed.


End BehaviourExamples.
